(** * httpeter: a tree-shaped request router (src/index.ts)

    A shallow embedding of the router's leaf parsers, tree resolver, error
    normaliser, dispatch pipeline and authentication wrapper, with the
    properties its specification states about them. *)

From Stdlib Require Import ZArith Ascii String List Lia.
From stdpp Require Import base option list strings gmap fin_maps pretty.

Local Open Scope string_scope.
Local Open Scope Z_scope.
Local Open Scope list_scope.
Local Set Warnings "-register-all".

(** ** JavaScript strings

    A string is a sequence of code units; [ascii] stands for the code unit.
    Only the four primitives the source uses are embedded: [indexOf] and
    [split] with a one-character argument, and the two forms of [substr]. *)

Module Js.

(** [str.indexOf(c)]: the first position of [c], or [-1]. *)
Fixpoint indexOf (c : ascii) (str : string) : Z :=
  match str with
  | EmptyString => -1
  | String a rest =>
      if Ascii.eqb a c then 0
      else let k := indexOf c rest in
           if k =? -1 then -1 else k + 1
  end.

(** [str.substr(start)], for [start >= 0]. *)
Fixpoint substr_from (start : nat) (str : string) : string :=
  match start, str with
  | O, _ => str
  | S _, EmptyString => EmptyString
  | S n, String _ rest => substr_from n rest
  end.

(** [str.substr(0, len)], for [len >= 0]. *)
Fixpoint substr_to (len : nat) (str : string) : string :=
  match len, str with
  | O, _ => EmptyString
  | S _, EmptyString => EmptyString
  | S n, String a rest => String a (substr_to n rest)
  end.

(** [str.substr(start, len)]. *)
Definition substr (start len : nat) (str : string) : string :=
  substr_to len (substr_from start str).

(** [str.split(sep)] for a one-character separator: never empty, and the
    empty string splits into the one-element array holding the empty
    string. *)
Fixpoint split (sep : ascii) (str : string) : list string :=
  match str with
  | EmptyString => [EmptyString]
  | String a rest =>
      if Ascii.eqb a sep then EmptyString :: split sep rest
      else match split sep rest with
           | [] => [String a EmptyString]
           | first :: others => String a first :: others
           end
  end.

(** [parts.join(sep)], also what converting an array to a string does with
    [sep = ","]. *)
Fixpoint join (sep : string) (parts : list string) : string :=
  match parts with
  | [] => EmptyString
  | [p] => p
  | p :: rest => p +:+ sep +:+ join sep rest
  end.

(** [c] occurs in [str]. *)
Fixpoint occurs (c : ascii) (str : string) : bool :=
  match str with
  | EmptyString => false
  | String a rest => Ascii.eqb a c || occurs c rest
  end.

End Js.

(** ** JavaScript values

    The values the pipeline passes around untyped ([any]): primitives and
    plain objects.  Numbers are the integer-valued ones (status codes). *)

Inductive JsValue : Type :=
| JsUndefined
| JsNull
| JsBool (b : bool)
| JsNum (n : Z)
| JsStr (s : string)
| JsObj (props : list (string * JsValue)).

(** Truthiness, as tested by [if (v)], [v && ...] and [v ? a : b]. *)
Definition truthy (v : JsValue) : bool :=
  match v with
  | JsUndefined | JsNull => false
  | JsBool b => b
  | JsNum n => negb (n =? 0)
  | JsStr s => negb (String.eqb s "")
  | JsObj _ => true
  end.

(** Own-property lookup in an object written as a list of entries. *)
Fixpoint assoc {A : Type} (key : string) (entries : list (string * A)) : option A :=
  match entries with
  | [] => None
  | (k, v) :: rest => if String.eqb k key then Some v else assoc key rest
  end.

(** [Object.keys(o)]: the keys in the object's enumeration order. *)
Definition Object_keys {A : Type} (entries : list (string * A)) : list string :=
  map fst entries.

(** The names a plain object inherits from [Object.prototype]: reading
    one of them from an object that has no own property of that name
    yields the inherited member, a function, or the prototype itself for
    [__proto__], and never [undefined]. *)
Definition Object_prototype_names : list string :=
  ["constructor"; "hasOwnProperty"; "isPrototypeOf"; "propertyIsEnumerable";
   "toLocaleString"; "toString"; "valueOf"; "__proto__";
   "__defineGetter__"; "__defineSetter__"; "__lookupGetter__"; "__lookupSetter__"].

Definition inherited (name : string) : bool :=
  existsb (String.eqb name) Object_prototype_names.

(** ** Leaf parsers *)

(** [readValues] (index.ts 97-109).  The loop assigns
    [values[keys[0]] = keys[1]] for each part in turn; [keys[1]] is
    [undefined] when the part holds no [=].  [values] is a plain object:
    an assignment to [__proto__] goes to the setter it inherits, which
    ignores a string and [undefined], and stores nothing; any other name
    becomes an own property. *)
Definition readValues_step (values : gmap string JsValue) (part : string)
  : gmap string JsValue :=
  let keys := Js.split "=" part in
  if String.eqb (nth 0 keys EmptyString) "__proto__" then values
  else
    <[ nth 0 keys EmptyString := match nth_error keys 1 with
                                 | Some v => JsStr v
                                 | None => JsUndefined
                                 end ]> values.

Definition readValues (str : string) : gmap string JsValue :=
  if (String.length str =? 0)%nat then ∅
  else
    let parts := Js.split "&" str in
    fold_left readValues_step parts ∅.

(** The object [parsePath] returns; [query] is [None] for [null]. *)
Record ParsedPath : Type := mkParsedPath {
  pp_path : string;
  pp_query : option (gmap string JsValue)
}.

(** [parsePath] (index.ts 121-131). *)
Definition parsePath (str : string) : ParsedPath :=
  let k := Js.indexOf "?" str in
  if k =? -1 then {| pp_path := str; pp_query := None |}
  else {| pp_path := Js.substr 0 (Z.to_nat k) str;
          pp_query := Some (readValues (Js.substr_from (Z.to_nat (k + 1)) str)) |}.

(** [readParts] (index.ts 133-138); [None] is a [null] or [undefined] path. *)
Definition readParts (path : option string) : list string :=
  match path with
  | None => []
  | Some p =>
      if (String.length p =? 0)%nat then []
      else Js.split "/" (Js.substr_from 1 p)
  end.

(** ** Errors and exceptions *)

(** [ToString] on the values of the model; a plain object has no
    [toString] of its own. *)
Definition ToString (v : JsValue) : string :=
  match v with
  | JsUndefined => "undefined"
  | JsNull => "null"
  | JsBool true => "true"
  | JsBool false => "false"
  | JsNum n => pretty n
  | JsStr s => s
  | JsObj _ => "[object Object]"
  end.

(** An instance of [class HttpError extends Error] (index.ts 13-17). *)
Record HttpError : Type := mkHttpError {
  statusCode : JsValue;
  message : string;
  body : JsValue
}.

(** [new HttpError(statusCode, message, body)].  [super(message)] leaves the
    inherited empty message when [message] is [undefined] and stores
    [ToString(message)] otherwise; the parameter [body] defaults to [null],
    a default that also replaces an explicit [undefined]. *)
Definition new_HttpError (code msg bdy : JsValue) : HttpError :=
  {| statusCode := code;
     message := match msg with JsUndefined => "" | _ => ToString msg end;
     body := match bdy with JsUndefined => JsNull | _ => bdy end |}.

(** What a [throw] or a rejected promise carries: an [HttpError] instance,
    or any other value. *)
Inductive Thrown : Type :=
| ThrownHttpError (e : HttpError)
| ThrownValue (v : JsValue).

(** The [TypeError] the engine raises on a property read from [null] or
    [undefined]; the wording of its message is the engine's. *)
Definition TypeError (property : string) : Thrown :=
  ThrownValue (JsObj [("name", JsStr "TypeError");
                      ("message", JsStr ("Cannot read property " +:+ property))]).

(** The [TypeError] the engine raises when a value read under [name] is
    called and the call, or the read of [then] from what it returns,
    fails; the wording is again the engine's. *)
Definition TypeError_call (name : string) : Thrown :=
  ThrownValue (JsObj [("name", JsStr "TypeError");
                      ("message", JsStr ("Cannot call " +:+ name))]).

(** A computation that returns or throws. *)
Inductive Exc (A : Type) : Type :=
| Return (a : A)
| Throw (e : Thrown).
Arguments Return {A} & a.
Arguments Throw {A} e.

(** Sequencing: a throw skips what follows.  [x ← m; k] is stdpp's
    notation for it. *)
#[global] Instance Exc_bind : MBind Exc := fun A B k m =>
  match m with
  | Return a => k a
  | Throw e => Throw e
  end.

(** [v.name]: a property read, which throws on [null] and [undefined] and
    yields [undefined] where the property is absent. *)
Definition get (v : JsValue) (name : string) : Exc JsValue :=
  match v with
  | JsUndefined | JsNull => Throw (TypeError name)
  | JsObj props => Return (default JsUndefined (assoc name props))
  | _ => Return JsUndefined
  end.

(** ** Requests, responses and the service tree *)

Record Request : Type := mkRequest {
  rq_method : string;
  rq_path : option string;
  rq_headers : gmap string JsValue;
  rq_query : JsValue;
  rq_body : option string
}.

Record Response : Type := mkResponse {
  rs_statusCode : JsValue;
  rs_headers : gmap string JsValue;
  rs_body : JsValue
}.

(** What awaiting an expression comes to: a value, a rejection (or a throw
    inside an [async] function), or a promise that never settles. *)
Inductive Awaited (A : Type) : Type :=
| Fulfilled (a : A)
| Rejected (e : Thrown)
| Pending.
Arguments Fulfilled {A} a.
Arguments Rejected {A} e.
Arguments Pending {A}.

(** What calling a request handler comes to: it throws before returning, or
    it returns a promise. *)
Inductive Called (A : Type) : Type :=
| Throws (e : Thrown)
| Promise (p : Awaited A).
Arguments Throws {A} e.
Arguments Promise {A} p.

Section Tree.

Variable U : Type.

(** [auth: () => Promise<U>], seen through what awaiting [auth()] gives. *)
Definition AuthAccessor : Type := unit -> Awaited U.

(** [type RequestHandler<U>] (index.ts 25). *)
Definition RequestHandler : Type := Request -> AuthAccessor -> Called Response.

(** [interface ServiceNode<U>] (index.ts 29-32).  Both dictionaries keep
    their enumeration order; [children] is [None] on a node where it is
    [null] or [undefined]. *)
Inductive ServiceNode : Type := mkServiceNode {
  methods : list (string * RequestHandler);
  children : option (list (string * ServiceNode))
}.

(** What a lookup in a [children] dictionary can give, and so what
    [invoke] and [getQueryResult] pass around under the type
    [ServiceNode<U>]: a node, or the member of [Object.prototype] the
    dictionary inherits under that name. *)
Inductive Resolved : Type :=
| ResolvedNode (node : ServiceNode)
| Inherited (name : string).

(** The message of the 404 thrown for an unknown child: the template
    literal of index.ts 84, where the array of keys is converted to a
    string by joining with commas. *)
Definition not_found_message (tag : string) (keys : list string) : string :=
  "Resource not found: " +:+ tag +:+ ". Did you mean " +:+ Js.join "," keys +:+ "?".

(** [node.children]: [None] where it is [null] or [undefined], as it is
    on an inherited member, a function or [Object.prototype], neither of
    which has a [children] property. *)
Definition children_of (node : Resolved) : option (list (string * ServiceNode)) :=
  match node with
  | ResolvedNode n => children n
  | Inherited _ => None
  end.

(** [node.children[tag]]: the own property of that name, else the member
    inherited under it, else [undefined] ([None]). *)
Definition children_lookup (cs : list (string * ServiceNode)) (tag : string)
  : option Resolved :=
  match assoc tag cs with
  | Some fn => Some (ResolvedNode fn)
  | None => if inherited tag then Some (Inherited tag) else None
  end.

(** [invoke] (index.ts 78-87). *)
Definition invoke (node : Resolved) (tag : string) : Exc Resolved :=
  match children_of node with
  | None =>
      Throw (ThrownHttpError
               (new_HttpError (JsNum 404) (JsStr "Illegal node parent. Missing children.")
                              JsUndefined))
  | Some cs =>
      match children_lookup cs tag with
      | None =>
          Throw (ThrownHttpError
                   (new_HttpError (JsNum 404) (JsStr (not_found_message tag (Object_keys cs)))
                                  JsUndefined))
      | Some fn => Return fn
      end
  end.

(** [getQueryResult] (index.ts 89-95).  The recursion counts [index] up to
    [paths.length]; [remaining] is the number of calls left,
    [paths.length - index], zero exactly when [index === paths.length] for
    an [index] within the array.  [paths[index]] is read within range. *)
Fixpoint getQueryResult_from (remaining : nat) (node : Resolved)
    (paths : list string) (index : nat) : Exc Resolved :=
  match remaining with
  | O => Return node
  | S remaining' =>
      result ← invoke node (nth index paths "undefined");
      getQueryResult_from remaining' result paths (index + 1)
  end.

Definition getQueryResult (node : Resolved) (paths : list string) (index : nat)
  : Exc Resolved :=
  getQueryResult_from (length paths - index) node paths index.

End Tree.

Arguments mkServiceNode {U} methods children.
Arguments methods {U} _.
Arguments children {U} _.
Arguments ResolvedNode {U} node.
Arguments Inherited {U} name.
Arguments children_of {U} node.
Arguments children_lookup {U} cs tag.
Arguments invoke {U} node tag.

(** A node is used where a resolved value is expected. *)
Coercion ResolvedNode : ServiceNode >-> Resolved.
Arguments getQueryResult_from {U} remaining node paths index.
Arguments getQueryResult {U} node paths index.

(** ** Request data *)

Section RequestData.

(** [JSON.parse], the engine's: it returns the decoded value or throws a
    [SyntaxError]. *)
Variable JSON_parse : string -> Exc JsValue.

(** [getRequestData] (index.ts 111-119).  [a && b] is [a] when [a] is
    falsy and [b] otherwise; an absent [body] is [undefined]. *)
Definition getRequestData (request : Request) : Exc JsValue :=
  if String.eqb (rq_method request) "GET" || String.eqb (rq_method request) "DELETE"
  then Return (rq_query request)
  else
    match rq_body request with
    | None => Return JsUndefined
    | Some b =>
        if truthy (JsStr b) then
          if (0 <? String.length b)%nat then JSON_parse b
          else Return (JsBool false)
        else Return (JsStr b)
    end.

End RequestData.

(** ** The dispatch pipeline *)

(** [options] (index.ts 140-145), the fixed header set. *)
Definition options : gmap string JsValue :=
  {[ "Access-Control-Allow-Origin" := JsStr "*";
     "Access-Control-Allow-Headers" := JsStr "Authorization, Content-Type, Auth-Provider";
     "Access-Control-Allow-Methods" := JsStr "OPTIONS, GET, POST, PUT";
     "Content-Type" := JsStr "application/json" ]}.

(** [getError] (index.ts 147-160).  The four console calls between the
    status-code test and the last [return] leave no trace in the result and
    are left out; the guarded [error ? error.message : null] among them
    cannot throw. *)
Definition getError (error : Thrown) : Exc HttpError :=
  match error with
  | ThrownHttpError e => Return e
  | ThrownValue e =>
      code ← get e "statusCode";
      if truthy code then
        msg ← get e "message";
        bdy ← get e "body";
        Return (new_HttpError code msg bdy)
      else
        msg ← get e "message";
        Return (new_HttpError (JsNum 500) msg JsUndefined)
  end.

(** The third argument of the response callback: a plain value, or the
    object [{request, message, body}] of the error path. *)
Inductive Payload : Type :=
| PayloadValue (v : JsValue)
| PayloadError (request : Request) (msg : string) (bdy : JsValue).

(** One invocation [callback(code, header, body)]. *)
Record CallbackArgs : Type := mkCallbackArgs {
  cb_code : JsValue;
  cb_header : gmap string JsValue;
  cb_body : Payload
}.

(** The response callback, seen through whether an invocation returns
    ([None]) or throws. *)
Definition Callback : Type := CallbackArgs -> option Thrown.

(** Code that invokes the callback: it threads the invocations made so
    far, oldest first, and returns or throws. *)
Definition Effect (A : Type) : Type := list CallbackArgs -> Exc A * list CallbackArgs.

#[global] Instance Effect_ret : MRet Effect := fun A a calls => (Return a, calls).

#[global] Instance Effect_bind : MBind Effect := fun A B k m calls =>
  match m calls with
  | (Return a, calls') => k a calls'
  | (Throw e, calls') => (Throw e, calls')
  end.

Definition lift {A : Type} (m : Exc A) : Effect A := fun calls => (m, calls).

(** [callback(code, header, body)]. *)
Definition call (callback : Callback) (args : CallbackArgs) : Effect unit :=
  fun calls =>
    (match callback args with
     | None => Return tt
     | Some e => Throw e
     end, calls ++ [args]).

(** [try { m } catch (error) { handler(error) }]. *)
Definition try_catch {A : Type} (m : Effect A) (handler : Thrown -> Effect A) : Effect A :=
  fun calls =>
    match m calls with
    | (Return a, calls') => (Return a, calls')
    | (Throw e, calls') => handler e calls'
    end.

(** [p.then(f)]: the promise it returns, and the invocations made once the
    reaction has run. *)
Definition then_ {A B : Type} (p : Awaited A) (f : A -> Effect B) : list CallbackArgs -> Awaited B * list CallbackArgs :=
  fun calls =>
    match p with
    | Fulfilled a =>
        match f a calls with
        | (Return b, calls') => (Fulfilled b, calls')
        | (Throw e, calls') => (Rejected e, calls')
        end
    | Rejected e => (Rejected e, calls)
    | Pending => (Pending, calls)
    end.

(** [p.catch(f)]. *)
Definition catch_ {A : Type} (p : Awaited A) (f : Thrown -> Effect A) : list CallbackArgs -> Awaited A * list CallbackArgs :=
  fun calls =>
    match p with
    | Fulfilled a => (Fulfilled a, calls)
    | Rejected e =>
        match f e calls with
        | (Return a, calls') => (Fulfilled a, calls')
        | (Throw e', calls') => (Rejected e', calls')
        end
    | Pending => (Pending, calls)
    end.

(** How a call of [handleRequest] ends once every reaction has run. *)
Inductive Completion : Type :=
| Completed
| Uncaught (e : Thrown)
| UnhandledRejection (e : Thrown)
| NeverSettles.

Record Outcome : Type := mkOutcome {
  calls : list CallbackArgs;
  completion : Completion
}.

Section Pipeline.

Variable U : Type.

(** [returnError] (index.ts 167-174). *)
Definition returnError (request : Request) (callback : Callback) (error : Thrown) : Effect unit :=
  httpError ← lift (getError error);
  call callback {| cb_code := statusCode httpError;
                   cb_header := options;
                   cb_body := PayloadError request (message httpError) (body httpError) |}.

(** [returnResponse] (index.ts 175-177); the later spread wins on a shared
    key, as the left operand of the union does. *)
Definition returnResponse (callback : Callback) (response : Response) : Effect unit :=
  call callback {| cb_code := JsNum 200;
                   cb_header := rs_headers response ∪ options;
                   cb_body := PayloadValue (rs_body response) |}.

(** The first two statements of the [try] block (index.ts 179-180): the
    path is segmented as it stands and resolved from the root. *)
Definition resolve_request (root : ServiceNode U) (request : Request) : Exc (Resolved U) :=
  let paths := readParts (rq_path request) in
  getQueryResult root paths 0.

(** The [try] statement of [handleRequest] (index.ts 178-193): it yields
    the promise chained on, when a handler was called and returned one.
    On an inherited member in place of a node, [node.methods] is
    [undefined] and the read of the verb from it throws.  [methods] is a
    plain object too: a verb that is no own property but a name of
    [Object_prototype_names] reads the inherited member, which is truthy
    and is called as [method(request, auth).then(...)]; each of them then
    throws a [TypeError], from the call itself ([this] is [undefined],
    [__proto__] is no function) or from the read of [then], which none of
    the values they return has. *)
Definition handleRequest_try (root : ServiceNode U) (auth : AuthAccessor U)
    (request : Request) (callback : Callback) : Effect (option (Awaited Response)) :=
  try_catch
    (resolved ← lift (resolve_request root request);
     match resolved with
     | Inherited _ => lift (Throw (TypeError (rq_method request)))
     | ResolvedNode node =>
         match assoc (rq_method request) (methods node) with
         | Some method =>
             match method request auth with
             | Throws e => lift (Throw e)
             | Promise p => mret (Some p)
             end
         | None =>
             if inherited (rq_method request) then
               lift (Throw (TypeError_call (rq_method request)))
             else if String.eqb (rq_method request) "OPTIONS" then
               call callback {| cb_code := JsNum 200; cb_header := options;
                                cb_body := PayloadValue (JsObj []) |};;
               mret None
             else
               call callback {| cb_code := JsNum 404; cb_header := options;
                                cb_body := PayloadValue (JsObj []) |};;
               mret None
         end
     end)
    (fun error => returnError request callback error;; mret None).

(** [handleRequest] (index.ts 162-194): the [try] statement, then the
    reactions [.then(returnResponse).catch(returnError)] on the handler's
    promise. *)
Definition handleRequest (root : ServiceNode U) (auth : AuthAccessor U)
    (request : Request) (callback : Callback) : Outcome :=
  match handleRequest_try root auth request callback [] with
  | (Throw e, calls0) => {| calls := calls0; completion := Uncaught e |}
  | (Return None, calls0) => {| calls := calls0; completion := Completed |}
  | (Return (Some p), calls0) =>
      let '(p1, calls1) := then_ p (returnResponse callback) calls0 in
      let '(p2, calls2) := catch_ p1 (returnError request callback) calls1 in
      {| calls := calls2;
         completion := match p2 with
                       | Fulfilled _ => Completed
                       | Rejected e => UnhandledRejection e
                       | Pending => NeverSettles
                       end |}
  end.

(** ** The authentication wrapper *)

(** The calls the wrapper makes. *)
Inductive Invocation : Type :=
| InvokedAuth
| InvokedHandler (user : U) (request : Request).

(** The body of an [async] function: it records the calls made so far and
    stops at the first awaited expression that rejects or never settles. *)
Definition Async (A : Type) : Type := list Invocation -> Awaited A * list Invocation.

#[global] Instance Async_ret : MRet Async := fun A a log => (Fulfilled a, log).

#[global] Instance Async_bind : MBind Async := fun A B k m log =>
  match m log with
  | (Fulfilled a, log') => k a log'
  | (Rejected e, log') => (Rejected e, log')
  | (Pending, log') => (Pending, log')
  end.

(** [await auth()]. *)
Definition await_auth (auth : AuthAccessor U) : Async U :=
  fun log => (auth tt, log ++ [InvokedAuth]).

(** [await handler(user, request)]; [handler] is given by what awaiting
    its call comes to. *)
Definition await_handler (handler : U -> Request -> Awaited JsValue)
    (user : U) (request : Request) : Async JsValue :=
  fun log => (handler user request, log ++ [InvokedHandler user request]).

(** The body of the function [authenticate] returns (index.ts 200-202). *)
Definition authenticate_body (handler : U -> Request -> Awaited JsValue)
    (request : Request) (auth : AuthAccessor U) : Async Response :=
  user ← await_auth auth;
  result ← await_handler handler user request;
  mret {| rs_statusCode := JsNum 200; rs_headers := ∅; rs_body := result |}.

(** [authenticate] (index.ts 196-203): an [async] function always returns
    a promise. *)
Definition authenticate (handler : U -> Request -> Awaited JsValue) : RequestHandler U :=
  fun request auth => Promise (fst (authenticate_body handler request auth [])).

End Pipeline.

Arguments returnError request callback error : simpl never.
Arguments resolve_request {U} root request.
Arguments handleRequest_try {U} root auth request callback.
Arguments handleRequest {U} root auth request callback.
Arguments InvokedAuth {U}.
Arguments InvokedHandler {U} user request.
Arguments await_auth {U} auth.
Arguments await_handler {U} handler user request.
Arguments authenticate_body {U} handler request auth.
Arguments authenticate {U} handler.

(** ** Query suffixes in the specification's words

    A suffix of [&]-separated [key=value] pairs: the text of one pair, the
    text of a sequence of pairs, and the flat mapping they denote, a later
    pair replacing an earlier one with the same key.  Keys and values hold
    neither separator. *)
Definition plain (str : string) : bool :=
  negb (Js.occurs "&" str) && negb (Js.occurs "=" str).

Definition pair_text (kv : string * string) : string :=
  fst kv +:+ String "=" (snd kv).

Definition query_text (pairs : list (string * string)) : string :=
  Js.join "&" (map pair_text pairs).

Definition query_mapping (pairs : list (string * string)) : gmap string JsValue :=
  fold_left (fun values kv => <[ fst kv := JsStr (snd kv) ]> values) pairs ∅.

(** ** The resolver in the specification's words

    Iterative child lookup: the segments are consumed one at a time, each
    looked up among the children of the node reached so far; [None] when a
    node has no children mapping or the segment is no key of it. *)
Fixpoint descend {U : Type} (node : ServiceNode U) (segments : list string)
  : option (ServiceNode U) :=
  match segments with
  | [] => Some node
  | segment :: rest =>
      match children node with
      | None => None
      | Some cs =>
          match assoc segment cs with
          | None => None
          | Some child => descend child rest
          end
      end
  end.

(** ** Sample trees and requests *)

Definition sample_request (method : string) (path : string) : Request :=
  {| rq_method := method; rq_path := Some path; rq_headers := ∅;
     rq_query := JsUndefined; rq_body := None |}.

Definition sample_response (value : JsValue) : Response :=
  {| rs_statusCode := JsNum 200; rs_headers := ∅; rs_body := value |}.

(** [json(value, children)] (index.ts 62-67). *)
Definition json {U : Type} (value : JsValue) (cs : list (string * ServiceNode U))
  : ServiceNode U :=
  mkServiceNode [("GET", fun _ _ => Promise (Fulfilled (sample_response value)))] (Some cs).

(** [httpGet(handler)] (index.ts 75). *)
Definition httpGet {U : Type} (handler : RequestHandler U) : ServiceNode U :=
  mkServiceNode [("GET", handler)] (Some []).

(** [json("root", {foo: json("foo")})]. *)
Definition foo_tree : ServiceNode unit :=
  json (JsStr "root") [("foo", json (JsStr "foo") [])].

(** The wrapped handler [user => user], over users that are strings. *)
Definition echo_user (user : string) (request : Request) : Awaited JsValue :=
  Fulfilled (JsStr user).

(** [httpGet(authenticate(user => user))]. *)
Definition guarded_tree : ServiceNode string :=
  httpGet (authenticate echo_user).

(** A callback that throws on every invocation. *)
Definition throwing_callback : Callback :=
  fun _ => Some (ThrownValue (JsObj [("message", JsStr "socket closed")])).

(** A node without a children mapping, below a root. *)
Definition bare_tree : ServiceNode unit :=
  mkServiceNode [] (Some [("leaf", mkServiceNode [] None)]).

(** An error object tagged with the status code 0, and one tagged 403. *)
Definition zero_status_error : JsValue :=
  JsObj [("statusCode", JsNum 0); ("message", JsStr "gone"); ("body", JsStr "details")].

Definition forbidden_error : JsValue :=
  JsObj [("statusCode", JsNum 403); ("message", JsStr "Forbidden")].

(** [null] and [undefined], thrown or rejected with. *)
Definition nullish (error : Thrown) : bool :=
  match error with
  | ThrownValue JsUndefined | ThrownValue JsNull => true
  | _ => false
  end.


(** A handler that answers 201 with a content type of its own. *)
Definition created_response : Response :=
  {| rs_statusCode := JsNum 201;
     rs_headers := {[ "Content-Type" := JsStr "text/plain" ]};
     rs_body := JsStr "made" |}.

Definition created_tree : ServiceNode unit :=
  mkServiceNode [("POST", fun _ _ => Promise (Fulfilled created_response))] (Some []).

(** An accessor written [() => Promise.reject()]: it rejects with
    [undefined]. *)
Definition rejecting_auth : AuthAccessor string :=
  fun _ => Rejected (ThrownValue JsUndefined).

(** ** The node constructors and the downstream helper *)

(** [httpNode(methods, children)] (index.ts 69). *)
Definition httpNode {U : Type} (ms : list (string * RequestHandler U))
    (cs : list (string * ServiceNode U)) : ServiceNode U :=
  mkServiceNode ms (Some cs).

(** [directory(children)] (index.ts 71-72). *)
Definition directory {U : Type} (cs : list (string * ServiceNode U)) : ServiceNode U :=
  httpNode
    [("GET", fun _ _ =>
               Promise (Fulfilled {| rs_statusCode := JsNum 200; rs_headers := ∅;
                                     rs_body := JsStr "directory" |}))]
    cs.

(** [httpPost(handler)] and [httpPut(handler)] (index.ts 74, 76). *)
Definition httpPost {U : Type} (handler : RequestHandler U) : ServiceNode U :=
  httpNode [("POST", handler)] [].

Definition httpPut {U : Type} (handler : RequestHandler U) : ServiceNode U :=
  httpNode [("PUT", handler)] [].

Section Downstream.

Variable JSON_parse : string -> Exc JsValue.

(** The listener [makeRequest] registers for the [end] event (index.ts
    43-50): [statusCode] is [res.statusCode], [chunks] the array the [data]
    listener has pushed the received chunks to, in order.  It returns the
    value the promise is resolved with, or throws what [JSON.parse]
    throws, before [resolve] is reached. *)
Definition makeRequest_end (code : JsValue) (chunks : list string) : Exc Response :=
  let result := Js.join "" chunks in
  let status := if truthy code then code else JsNum 500 in
  parsed ← (if (String.length result =? 0)%nat then Return JsNull else JSON_parse result);
  Return {| rs_statusCode := status; rs_headers := ∅; rs_body := parsed |}.

End Downstream.

(** ** Predicates and measures of the statements *)

(** The number of nodes of a tree. *)
Fixpoint node_size {U : Type} (node : ServiceNode U) : nat :=
  match node with
  | mkServiceNode _ None => 1
  | mkServiceNode _ (Some cs) =>
      S (list_sum (map (fun entry => match entry with (_, child) => node_size child end) cs))
  end.

(** What an entry of a [readValues] result can be: the key holds no
    separator, and the value is [undefined] or a string without one. *)
Definition plain_entry (key : string) (value : JsValue) : Prop :=
  plain key = true /\
  (value = JsUndefined \/ exists text, value = JsStr text /\ plain text = true).

(** * Properties *)

(** ** Strings *)

Section StringFacts.

Variable sep : ascii.

Lemma split_nonempty (str : string) : Js.split sep str <> [].
Proof.
  destruct str as [|a rest]; simpl; [discriminate|].
  destruct (Ascii.eqb a sep); [discriminate|].
  destruct (Js.split sep rest); discriminate.
Qed.

Lemma split_absent (str : string) :
  Js.occurs sep str = false -> Js.split sep str = [str].
Proof.
  induction str as [|a rest IH]; simpl; [reflexivity|].
  intros H. apply orb_false_iff in H as [Ha Hrest].
  rewrite Ha, (IH Hrest). reflexivity.
Qed.

Lemma split_app (first rest : string) :
  Js.occurs sep first = false ->
  Js.split sep (first +:+ String sep rest) = first :: Js.split sep rest.
Proof.
  induction first as [|a first IH]; simpl.
  - intros _. rewrite Ascii.eqb_refl. reflexivity.
  - intros H. apply orb_false_iff in H as [Ha Hfirst].
    rewrite Ha. cbn. fold (first +:+ String sep rest). rewrite (IH Hfirst). reflexivity.
Qed.

Lemma split_join (parts : list string) :
  parts <> [] ->
  Forall (fun p => Js.occurs sep p = false) parts ->
  Js.split sep (Js.join (String sep EmptyString) parts) = parts.
Proof.
  induction parts as [|p rest IH]; [congruence|].
  intros _ Hall. inversion Hall as [|? ? Hp Hrest]; subst.
  destruct rest as [|q rest].
  - simpl. apply split_absent, Hp.
  - change (Js.join (String sep EmptyString) (p :: q :: rest))
      with (p +:+ String sep (Js.join (String sep EmptyString) (q :: rest))).
    rewrite split_app by exact Hp.
    rewrite IH; [reflexivity|discriminate|exact Hrest].
Qed.

Lemma join_split (str : string) :
  Js.join (String sep EmptyString) (Js.split sep str) = str.
Proof.
  induction str as [|a rest IH]; simpl; [reflexivity|].
  destruct (Ascii.eqb_spec a sep) as [->|Hne].
  - pose proof (split_nonempty rest) as Hnil.
    destruct (Js.split sep rest) as [|q others]; [congruence|].
    change (Js.join (String sep EmptyString) (EmptyString :: q :: others))
      with (String sep (Js.join (String sep EmptyString) (q :: others))).
    rewrite IH. reflexivity.
  - pose proof (split_nonempty rest) as Hnil.
    destruct (Js.split sep rest) as [|q others]; [congruence|].
    destruct others as [|r others].
    + simpl in *. rewrite IH. reflexivity.
    + change (Js.join (String sep EmptyString) (String a q :: r :: others))
        with (String a (Js.join (String sep EmptyString) (q :: r :: others))).
      rewrite IH. reflexivity.
Qed.

Lemma indexOf_absent (str : string) :
  Js.occurs sep str = false -> Js.indexOf sep str = -1.
Proof.
  induction str as [|a rest IH]; simpl; [reflexivity|].
  intros H. apply orb_false_iff in H as [Ha Hrest].
  rewrite Ha, (IH Hrest). reflexivity.
Qed.

Lemma indexOf_lower_bound (str : string) : -1 <= Js.indexOf sep str.
Proof.
  induction str as [|a rest IH]; simpl; [lia|].
  destruct (Ascii.eqb a sep); [lia|].
  destruct (Z.eqb_spec (Js.indexOf sep rest) (-1)); lia.
Qed.

Lemma indexOf_first (first rest : string) :
  Js.occurs sep first = false ->
  Js.indexOf sep (first +:+ String sep rest) = Z.of_nat (String.length first).
Proof.
  induction first as [|a first IH]; simpl.
  - intros _. rewrite Ascii.eqb_refl. reflexivity.
  - intros H. apply orb_false_iff in H as [Ha Hfirst].
    rewrite Ha. cbn. fold (first +:+ String sep rest). rewrite (IH Hfirst).
    destruct (Z.eqb_spec (Z.of_nat (String.length first)) (-1)); lia.
Qed.

Lemma indexOf_present (str : string) :
  Js.occurs sep str = true -> 0 <= Js.indexOf sep str.
Proof.
  induction str as [|a rest IH]; simpl; [discriminate|].
  destruct (Ascii.eqb a sep); simpl; [lia|].
  intros H. specialize (IH H).
  destruct (Z.eqb_spec (Js.indexOf sep rest) (-1)); lia.
Qed.

End StringFacts.

Lemma substr_to_app (first rest : string) :
  Js.substr 0 (String.length first) (first +:+ rest) = first.
Proof.
  unfold Js.substr. simpl.
  induction first as [|a first IH]; simpl.
  - destruct rest; reflexivity.
  - cbn. fold (first +:+ rest). rewrite IH. reflexivity.
Qed.

Lemma substr_from_app (first rest : string) (c : ascii) :
  Js.substr_from (String.length first + 1) (first +:+ String c rest) = rest.
Proof.
  induction first as [|a first IH]; simpl; [reflexivity|].
  cbn. fold (first +:+ String c rest). exact IH.
Qed.

(** ** Leaf parsers *)

Lemma parsePath_without_query (str : string) :
  Js.occurs "?" str = false ->
  parsePath str = {| pp_path := str; pp_query := None |}.
Proof.
  intros H. unfold parsePath. rewrite (indexOf_absent _ _ H). reflexivity.
Qed.

Lemma parsePath_with_query (path suffix : string) :
  Js.occurs "?" path = false ->
  parsePath (path +:+ String "?" suffix)
  = {| pp_path := path; pp_query := Some (readValues suffix) |}.
Proof.
  intros H. unfold parsePath. rewrite (indexOf_first _ _ _ H).
  destruct (Z.eqb_spec (Z.of_nat (String.length path)) (-1)) as [Hk|_]; [lia|].
  rewrite Nat2Z.id.
  replace (Z.to_nat (Z.of_nat (String.length path) + 1)) with (String.length path + 1)%nat by lia.
  rewrite substr_to_app, substr_from_app. reflexivity.
Qed.

Lemma occurs_app (c : ascii) (a b : string) :
  Js.occurs c (a +:+ b) = Js.occurs c a || Js.occurs c b.
Proof.
  induction a as [|x a IH]; simpl; [reflexivity|].
  cbn. fold (a +:+ b). rewrite IH. apply orb_assoc.
Qed.

Lemma string_app_empty_r (str : string) : str +:+ "" = str.
Proof.
  induction str as [|a rest IH]; [reflexivity|].
  change (String a (rest +:+ "") = String a rest). rewrite IH. reflexivity.
Qed.

Lemma plain_parts (str : string) :
  plain str = true -> Js.occurs "&" str = false /\ Js.occurs "=" str = false.
Proof.
  unfold plain. intros H. apply andb_true_iff in H as [H1 H2].
  split; apply negb_true_iff; assumption.
Qed.

Lemma readValues_step_pair (values : gmap string JsValue) (key value : string) :
  plain key = true -> plain value = true ->
  readValues_step values (pair_text (key, value))
  = if String.eqb key "__proto__" then values else <[ key := JsStr value ]> values.
Proof.
  intros Hk Hv. apply plain_parts in Hk as [_ Hk]. apply plain_parts in Hv as [_ Hv].
  unfold readValues_step, pair_text. simpl fst. simpl snd.
  rewrite (split_app _ _ _ Hk), (split_absent _ _ Hv). reflexivity.
Qed.

Lemma fold_readValues_step (pairs : list (string * string)) (values : gmap string JsValue) :
  Forall (fun kv => plain (fst kv) = true /\ plain (snd kv) = true) pairs ->
  Forall (fun kv => fst kv <> "__proto__") pairs ->
  fold_left readValues_step (map pair_text pairs) values
  = fold_left (fun values kv => <[ fst kv := JsStr (snd kv) ]> values) pairs values.
Proof.
  intros Hall. revert values.
  induction Hall as [|[key value] rest [Hk Hv] _ IH]; intros values Hown; [reflexivity|].
  inversion Hown as [|? ? Hkey Hrest]; subst. simpl in Hkey.
  simpl. rewrite readValues_step_pair by assumption.
  apply String.eqb_neq in Hkey. rewrite Hkey. apply IH, Hrest.
Qed.

Lemma pair_text_no_ampersand (kv : string * string) :
  plain (fst kv) = true /\ plain (snd kv) = true ->
  Js.occurs "&" (pair_text kv) = false.
Proof.
  intros [Hk Hv]. apply plain_parts in Hk as [Hk _]. apply plain_parts in Hv as [Hv _].
  unfold pair_text. rewrite occurs_app. simpl. rewrite Hk, Hv. reflexivity.
Qed.

Lemma query_text_not_empty (kv : string * string) (rest : list (string * string)) :
  String.length (query_text (kv :: rest)) <> 0%nat.
Proof.
  unfold query_text. simpl map.
  assert (Hpair : forall tail, String.length (pair_text kv +:+ tail) <> 0%nat).
  { intros tail. unfold pair_text. destruct (fst kv); cbn; discriminate. }
  destruct (map pair_text rest) as [|q others].
  - simpl. specialize (Hpair EmptyString).
    rewrite string_app_empty_r in Hpair. exact Hpair.
  - apply Hpair.
Qed.

Lemma readValues_split_pairs (pairs : list (string * string)) :
  Forall (fun kv => plain (fst kv) = true /\ plain (snd kv) = true) pairs ->
  readValues (query_text pairs) = fold_left readValues_step (map pair_text pairs) ∅.
Proof.
  intros Hall. destruct pairs as [|kv rest]; [reflexivity|].
  unfold readValues.
  destruct (Nat.eqb_spec (String.length (query_text (kv :: rest))) 0) as [H0|_].
  - exfalso. exact (query_text_not_empty _ _ H0).
  - unfold query_text. rewrite split_join.
    + reflexivity.
    + discriminate.
    + apply Forall_map. eapply Forall_impl; [exact Hall|].
      intros kv' H. apply pair_text_no_ampersand, H.
Qed.

(** For pairs none of which has the key [__proto__], [readValues] gives
    the mapping the pairs denote. *)
Lemma readValues_pairs (pairs : list (string * string)) :
  Forall (fun kv => plain (fst kv) = true /\ plain (snd kv) = true) pairs ->
  Forall (fun kv => fst kv <> "__proto__") pairs ->
  readValues (query_text pairs) = query_mapping pairs.
Proof.
  intros Hall Hown. destruct pairs as [|kv rest]; [reflexivity|].
  unfold readValues.
  destruct (Nat.eqb_spec (String.length (query_text (kv :: rest))) 0) as [H0|_].
  - exfalso. exact (query_text_not_empty _ _ H0).
  - unfold query_text. rewrite split_join.
    + apply fold_readValues_step; assumption.
    + discriminate.
    + apply Forall_map. eapply Forall_impl; [exact Hall|].
      intros kv' H. apply pair_text_no_ampersand, H.
Qed.

Lemma readParts_segments (segments : list string) :
  segments <> [] ->
  Forall (fun segment => Js.occurs "/" segment = false) segments ->
  readParts (Some (String "/" (Js.join "/" segments))) = segments.
Proof.
  intros Hne Hall. unfold readParts. simpl. apply split_join; assumption.
Qed.

(** Where the leaf parsers do conform to section 4.1: [parsePath] at the
    first [?], [readValues] on pairs none of which has the key
    [__proto__], [readParts] on a [/]-led sequence of segments. *)
Lemma leaf_parsers_on_ordinary_keys :
  (forall str, Js.occurs "?" str = false ->
     parsePath str = {| pp_path := str; pp_query := None |}) /\
  (forall path suffix, Js.occurs "?" path = false ->
     parsePath (path +:+ String "?" suffix)
     = {| pp_path := path; pp_query := Some (readValues suffix) |}) /\
  (forall pairs,
     Forall (fun kv => plain (fst kv) = true /\ plain (snd kv) = true) pairs ->
     Forall (fun kv => fst kv <> "__proto__") pairs ->
     readValues (query_text pairs) = query_mapping pairs) /\
  readValues "" = ∅ /\
  readValues "a=1&b=2&c=8"
  = {[ "a" := JsStr "1"; "b" := JsStr "2"; "c" := JsStr "8" ]} /\
  parsePath "/foo/bar?x=1"
  = {| pp_path := "/foo/bar"; pp_query := Some {[ "x" := JsStr "1" ]} |} /\
  (forall segments, segments <> [] ->
     Forall (fun segment => Js.occurs "/" segment = false) segments ->
     readParts (Some (String "/" (Js.join "/" segments))) = segments) /\
  readParts (Some "/a/b/c") = ["a"; "b"; "c"] /\
  readParts (Some "") = [] /\
  readParts None = [].
Proof.
  split; [exact parsePath_without_query|].
  split; [exact parsePath_with_query|].
  split; [exact readValues_pairs|].
  split; [reflexivity|].
  split; [vm_compute; reflexivity|].
  split; [vm_compute; reflexivity|].
  split; [exact readParts_segments|].
  repeat split; reflexivity.
Qed.

(** C9.  The leaf parsers are to turn a suffix of [&]-separated
    [key=value] pairs into the flat mapping from each key to its raw value
    string.  [readValues] does not for the key [__proto__]: the pair
    [__proto__=1], a [key=value] pair of plain text like any other, is to
    give the one-entry mapping from [__proto__] to ["1"], and the code
    returns the empty mapping, alone and after [parsePath]; among other
    pairs, that pair is the one missing. *)
Theorem readValues_drops_proto_key :
  plain "__proto__" = true /\ plain "1" = true /\
  query_text [("__proto__", "1")] = "__proto__=1" /\
  query_mapping [("__proto__", "1")] = {[ "__proto__" := JsStr "1" ]} /\
  readValues "__proto__=1" = ∅ /\
  readValues "__proto__=1" <> query_mapping [("__proto__", "1")] /\
  parsePath "/foo?__proto__=1" = {| pp_path := "/foo"; pp_query := Some ∅ |} /\
  readValues "a=1&__proto__=2&c=8" = {[ "a" := JsStr "1"; "c" := JsStr "8" ]}.
Proof.
  repeat split; try reflexivity; try (vm_compute; reflexivity).
  intros H. apply (f_equal (fun values => values !! "__proto__")) in H.
  vm_compute in H. discriminate H.
Qed.

(** ** Resolution *)

Section Resolution.

Context {U : Type}.
Implicit Types (node : Resolved U) (paths : list string).

Lemma getQueryResult_from_shift (remaining : nat) node (before paths : list string) (index : nat) :
  getQueryResult_from remaining node (before ++ paths) (length before + index)
  = getQueryResult_from remaining node paths index.
Proof.
  revert node index.
  induction remaining as [|remaining IH]; intros node index; [reflexivity|].
  simpl. rewrite app_nth2_plus.
  destruct (invoke node (nth index paths "undefined")) as [result|e]; [|reflexivity].
  cbn. rewrite <- Nat.add_assoc. apply IH.
Qed.

(** The equation the source is written by, for an index within the
    array. *)
Lemma getQueryResult_equation node paths (index : nat) :
  (index <= length paths)%nat ->
  getQueryResult node paths index
  = if (index =? length paths)%nat then Return node
    else result ← invoke node (nth index paths "undefined");
         getQueryResult result paths (index + 1).
Proof.
  intros Hle. unfold getQueryResult.
  destruct (Nat.eqb_spec index (length paths)) as [->|Hne].
  - rewrite Nat.sub_diag. reflexivity.
  - replace (length paths - index)%nat with (S (length paths - (index + 1))) by lia.
    reflexivity.
Qed.

Lemma getQueryResult_nil node : getQueryResult node [] 0 = Return node.
Proof. reflexivity. Qed.

Lemma getQueryResult_cons node (tag : string) paths :
  getQueryResult node (tag :: paths) 0
  = result ← invoke node tag; getQueryResult result paths 0.
Proof.
  unfold getQueryResult. simpl.
  destruct (invoke node tag) as [result|e]; [|reflexivity].
  cbn. rewrite Nat.sub_0_r.
  exact (getQueryResult_from_shift (length paths) result [tag] paths 0).
Qed.

(** From an inherited member nothing resolves further. *)
Lemma getQueryResult_inherited (name : string) paths (target : ServiceNode U) :
  getQueryResult (Inherited name) paths 0 <> Return (ResolvedNode target).
Proof.
  destruct paths as [|tag paths].
  - rewrite getQueryResult_nil. discriminate.
  - rewrite getQueryResult_cons. discriminate.
Qed.

Lemma getQueryResult_descend (start : ServiceNode U) paths (target : ServiceNode U) :
  getQueryResult start paths 0 = Return (ResolvedNode target)
  <-> descend start paths = Some target.
Proof.
  revert start. induction paths as [|tag paths IH]; intros start.
  - rewrite getQueryResult_nil. simpl. split; congruence.
  - rewrite getQueryResult_cons. simpl. unfold invoke, children_lookup. simpl.
    destruct (children start) as [cs|]; [|split; discriminate].
    destruct (assoc tag cs) as [child|]; [apply IH|].
    destruct (inherited tag); [|split; discriminate].
    split; [|discriminate].
    intros H. exfalso. exact (getQueryResult_inherited _ _ _ H).
Qed.

Lemma getQueryResult_app (start : ServiceNode U) (before paths : list string)
    (reached : ServiceNode U) :
  descend start before = Some reached ->
  getQueryResult start (before ++ paths) 0 = getQueryResult reached paths 0.
Proof.
  revert start. induction before as [|tag before IH]; intros start; simpl.
  - congruence.
  - rewrite getQueryResult_cons. unfold invoke, children_lookup. simpl.
    destruct (children start) as [cs|]; [|discriminate].
    destruct (assoc tag cs) as [child|]; [|discriminate].
    apply IH.
Qed.

Lemma child_smaller (ms : list (string * RequestHandler U))
    (cs : list (string * ServiceNode U)) (tag : string) (child : ServiceNode U) :
  assoc tag cs = Some child ->
  (node_size child < node_size (mkServiceNode ms (Some cs)))%nat.
Proof.
  simpl. induction cs as [|[k c] cs IH]; simpl; [discriminate|].
  destruct (String.eqb k tag).
  - intros [= ->]. lia.
  - intros H. specialize (IH H). lia.
Qed.

(** The path ["/"] resolves to the lookup of the child named by the empty
    string. *)
Lemma resolve_request_slash (root : ServiceNode U) (request : Request) :
  rq_path request = Some "/" ->
  resolve_request root request
  = match children root with
    | None =>
        Throw (ThrownHttpError
                 {| statusCode := JsNum 404;
                    message := "Illegal node parent. Missing children.";
                    body := JsNull |})
    | Some cs =>
        match assoc "" cs with
        | Some child => Return (ResolvedNode child)
        | None =>
            Throw (ThrownHttpError
                     {| statusCode := JsNum 404;
                        message := "Resource not found: . Did you mean "
                                   +:+ Js.join "," (Object_keys cs) +:+ "?";
                        body := JsNull |})
        end
    end.
Proof.
  intros Hpath. unfold resolve_request. rewrite Hpath.
  change (readParts (Some "/")) with [""]. rewrite getQueryResult_cons.
  unfold invoke, children_lookup. simpl.
  destruct (children root) as [cs|]; [|reflexivity].
  destruct (assoc "" cs); reflexivity.
Qed.

Lemma resolve_request_slash_not_root (root : ServiceNode U) (request : Request) :
  rq_path request = Some "/" ->
  resolve_request root request <> Return (ResolvedNode root).
Proof.
  intros Hpath. rewrite (resolve_request_slash root request Hpath).
  destruct root as [ms [cs|]]; simpl; [|discriminate].
  destruct (assoc "" cs) as [child|] eqn:Hchild; [|discriminate].
  intros [= ->]. pose proof (child_smaller ms cs "" _ Hchild) as Hlt. lia.
Qed.

End Resolution.

(** C10.  [readParts] drops the first character of a non-empty path,
    whatever it is, before splitting on [/]: the path ["/"] gives the
    one-element sequence holding the empty string, so resolving it from a
    root looks up the child named by the empty string, giving that child
    or a 404, and never the root itself; a path without a leading slash
    loses its first character. *)
Theorem readParts_drops_first_character :
  (forall (c : ascii) (rest : string),
     readParts (Some (String c rest)) = Js.split "/" rest) /\
  readParts (Some "/") = [""] /\
  (forall (U : Type) (root : ServiceNode U) (request : Request),
     rq_path request = Some "/" ->
     resolve_request root request
     = match children root with
       | None =>
           Throw (ThrownHttpError
                    {| statusCode := JsNum 404;
                       message := "Illegal node parent. Missing children.";
                       body := JsNull |})
       | Some cs =>
           match assoc "" cs with
           | Some child => Return (ResolvedNode child)
           | None =>
               Throw (ThrownHttpError
                        {| statusCode := JsNum 404;
                           message := "Resource not found: . Did you mean "
                                      +:+ Js.join "," (Object_keys cs) +:+ "?";
                           body := JsNull |})
           end
       end) /\
  (forall (U : Type) (root : ServiceNode U) (request : Request),
     rq_path request = Some "/" ->
     resolve_request root request <> Return (ResolvedNode root)) /\
  readParts (Some "foo/bar") = ["oo"; "bar"].
Proof.
  split; [reflexivity|].
  split; [reflexivity|].
  split; [intros U; exact resolve_request_slash|].
  split; [intros U; exact resolve_request_slash_not_root|].
  reflexivity.
Qed.

Lemma readParts_drops_first_character_witness :
  resolve_request foo_tree (sample_request "GET" "/")
  = Throw (ThrownHttpError
             {| statusCode := JsNum 404;
                message := "Resource not found: . Did you mean foo?";
                body := JsNull |}) /\
  resolve_request foo_tree (sample_request "GET" "/") <> Return (ResolvedNode foo_tree) /\
  resolve_request foo_tree (sample_request "GET" "") = Return (ResolvedNode foo_tree).
Proof.
  destruct readParts_drops_first_character as (_ & _ & Hlookup & Hroot & _).
  split; [exact (Hlookup unit foo_tree (sample_request "GET" "/") eq_refl)|].
  split; [exact (Hroot unit foo_tree (sample_request "GET" "/") eq_refl)|].
  reflexivity.
Defined.

(** Where resolution does what it is to do: it returns exactly the node
    that iterative child lookup reaches, and throws the two 404 errors, at
    a node without a children mapping and at a segment that is neither a
    key of the children reached nor a name inherited from
    [Object.prototype]. *)
Lemma getQueryResult_resolves_own_keys :
  forall (U : Type),
  (forall node : ServiceNode U, getQueryResult node [] 0 = Return (ResolvedNode node)) /\
  (forall (node : ServiceNode U) segments (target : ServiceNode U),
     getQueryResult node segments 0 = Return (ResolvedNode target)
     <-> descend node segments = Some target) /\
  (forall (node reached : ServiceNode U) before tag after cs,
     descend node before = Some reached ->
     children reached = Some cs ->
     assoc tag cs = None ->
     inherited tag = false ->
     getQueryResult node (before ++ tag :: after) 0
     = Throw (ThrownHttpError
                {| statusCode := JsNum 404;
                   message := "Resource not found: " +:+ tag +:+ ". Did you mean "
                              +:+ Js.join "," (Object_keys cs) +:+ "?";
                   body := JsNull |})) /\
  (forall (node reached : ServiceNode U) before tag after,
     descend node before = Some reached ->
     children reached = None ->
     getQueryResult node (before ++ tag :: after) 0
     = Throw (ThrownHttpError
                {| statusCode := JsNum 404;
                   message := "Illegal node parent. Missing children.";
                   body := JsNull |})).
Proof.
  intros U.
  split; [intros node; apply getQueryResult_nil|].
  split; [exact getQueryResult_descend|].
  split.
  - intros node reached before tag after cs Hreach Hcs Hmiss Hown.
    rewrite (getQueryResult_app _ _ _ _ Hreach), getQueryResult_cons.
    unfold invoke, children_lookup. simpl. rewrite Hcs, Hmiss, Hown. reflexivity.
  - intros node reached before tag after Hreach Hcs.
    rewrite (getQueryResult_app _ _ _ _ Hreach), getQueryResult_cons.
    unfold invoke. simpl. rewrite Hcs. reflexivity.
Qed.

(** ** Segmentation in the pipeline *)

(** C2, as stated, fails: the path ["/foo?x=1"] is segmented with its
    query suffix, so the tree with the child [foo] answers 404 where the
    path parsed by [parsePath] would have resolved. *)
Lemma handleRequest_does_not_split_query :
  Js.occurs "?" "/foo?x=1" = true /\
  readParts (Some (pp_path (parsePath "/foo?x=1"))) = ["foo"] /\
  readParts (rq_path (sample_request "GET" "/foo?x=1")) = ["foo?x=1"] /\
  resolve_request foo_tree (sample_request "GET" "/foo?x=1")
  = Throw (ThrownHttpError
             {| statusCode := JsNum 404;
                message := "Resource not found: foo?x=1. Did you mean foo?";
                body := JsNull |}) /\
  resolve_request foo_tree (sample_request "GET" "/foo?x=1")
  <> getQueryResult foo_tree (readParts (Some (pp_path (parsePath "/foo?x=1")))) 0 /\
  calls (handleRequest foo_tree (fun _ => Pending) (sample_request "GET" "/foo?x=1")
           (fun _ => None))
  = [{| cb_code := JsNum 404; cb_header := options;
        cb_body := PayloadError (sample_request "GET" "/foo?x=1")
                     "Resource not found: foo?x=1. Did you mean foo?" JsNull |}].
Proof.
  repeat split; try reflexivity.
  vm_compute. discriminate.
Qed.

(** C2, amended.  [handleRequest] segments the request's path as it
    stands, with [readParts] alone and no query splitting: the segments
    resolved are the path without its first character split on [/], and
    joined by [/] they give that text back, query suffix included. *)
Theorem handleRequest_segments_path_verbatim :
  forall (U : Type) (root : ServiceNode U) (request : Request) (c : ascii) (rest : string),
    rq_path request = Some (String c rest) ->
    resolve_request root request = getQueryResult root (Js.split "/" rest) 0 /\
    Js.join "/" (Js.split "/" rest) = rest.
Proof.
  intros U root request c rest Hpath. split.
  - unfold resolve_request. rewrite Hpath. reflexivity.
  - apply join_split.
Qed.

Lemma handleRequest_segments_path_verbatim_witness :
  resolve_request foo_tree (sample_request "GET" "/foo?x=1")
  = getQueryResult foo_tree (Js.split "/" "foo?x=1") 0 /\
  Js.join "/" (Js.split "/" "foo?x=1") = "foo?x=1".
Proof.
  apply (handleRequest_segments_path_verbatim unit foo_tree _ "/"). reflexivity.
Defined.

(** ** The error normaliser *)

Lemma get_not_nullish (v : JsValue) (name : string) :
  nullish (ThrownValue v) = false ->
  exists field, get v name = Return field.
Proof.
  destruct v; simpl; try discriminate; eauto.
Qed.

Lemma get_Return_not_nullish (v field : JsValue) (name : string) :
  get v name = Return field -> nullish (ThrownValue v) = false.
Proof.
  destruct v; simpl; try discriminate; reflexivity.
Qed.





(** The invocation the error path makes for a normalised error. *)
Lemma returnError_call (request : Request) (callback : Callback)
    (error : Thrown) (httpError : HttpError) (before : list CallbackArgs) :
  getError error = Return httpError ->
  let args := {| cb_code := statusCode httpError; cb_header := options;
                 cb_body := PayloadError request (message httpError) (body httpError) |} in
  returnError request callback error before
  = (match callback args with None => Return tt | Some e => Throw e end,
     before ++ [args]).
Proof.
  intros Herr. unfold returnError, mbind, Effect_bind, lift. rewrite Herr. reflexivity.
Qed.

Lemma returnError_throws (request : Request) (callback : Callback)
    (error e : Thrown) (before : list CallbackArgs) :
  getError error = Throw e ->
  returnError request callback error before = (Throw e, before).
Proof.
  intros Herr. unfold returnError, mbind, Effect_bind, lift. rewrite Herr. reflexivity.
Qed.




(** ** The dispatch pipeline *)

Lemma returnError_extends (request : Request) (callback : Callback)
    (error : Thrown) (before : list CallbackArgs) :
  exists extra, snd (returnError request callback error before) = before ++ extra.
Proof.
  destruct (getError error) as [httpError|e] eqn:Herr.
  - rewrite (returnError_call _ _ _ _ _ Herr). eauto.
  - rewrite (returnError_throws _ _ _ _ _ Herr). exists []. simpl. symmetry. apply app_nil_r.
Qed.

Ltac unfold_pipeline :=
  unfold handleRequest, handleRequest_try, try_catch, then_, catch_, returnResponse,
    call, lift, mbind, mret, Effect_bind, Effect_ret.

Section Dispatch.

Context {U : Type}.
Variables (root : ServiceNode U) (auth : AuthAccessor U).
Variables (request : Request) (callback : Callback).

(** With no handler for a verb that is no inherited name either, the
    callback is first invoked with 200 for [OPTIONS] and 404 otherwise, the
    fixed headers and [{}]. *)
Lemma handleRequest_no_handler (node : ServiceNode U) :
  resolve_request root request = Return node ->
  assoc (rq_method request) (methods node) = None ->
  inherited (rq_method request) = false ->
  let args := {| cb_code := if String.eqb (rq_method request) "OPTIONS"
                            then JsNum 200 else JsNum 404;
                 cb_header := options;
                 cb_body := PayloadValue (JsObj []) |} in
  exists rest,
    calls (handleRequest root auth request callback) = args :: rest /\
    (callback args = None ->
     rest = [] /\ completion (handleRequest root auth request callback) = Completed).
Proof.
  intros Hnode Hnone Hown args. subst args. unfold_pipeline. rewrite Hnode, Hnone, Hown.
  destruct (String.eqb (rq_method request) "OPTIONS"); simpl.
  all: match goal with |- context [callback ?a] => destruct (callback a) as [e|] eqn:Hcb end.
  all: simpl.
  2, 4: exists []; split; [reflexivity|]; intros _; split; reflexivity.
  all: match goal with |- context [returnError ?r ?c ?e ?b] =>
         destruct (returnError_extends r c e b) as [extra Hextra];
         destruct (returnError r c e b) as [[[]|e'] calls'] end.
  all: simpl in *; subst; exists extra; split; [reflexivity|discriminate].
Qed.

(** When the handler's promise fulfils, the callback is first invoked by
    [returnResponse]. *)
Lemma handleRequest_fulfilled (node : ServiceNode U) (method : RequestHandler U)
    (response : Response) :
  resolve_request root request = Return node ->
  assoc (rq_method request) (methods node) = Some method ->
  method request auth = Promise (Fulfilled response) ->
  let args := {| cb_code := JsNum 200;
                 cb_header := rs_headers response ∪ options;
                 cb_body := PayloadValue (rs_body response) |} in
  exists rest,
    calls (handleRequest root auth request callback) = args :: rest /\
    (callback args = None ->
     rest = [] /\ completion (handleRequest root auth request callback) = Completed).
Proof.
  intros Hnode Hsome Hcall args. subst args. unfold_pipeline.
  rewrite Hnode, Hsome, Hcall. simpl.
  match goal with |- context [callback ?a] => destruct (callback a) as [e|] eqn:Hcb end.
  2: exists []; split; [reflexivity|]; intros _; split; reflexivity.
  simpl.
  match goal with |- context [returnError ?r ?c ?e ?b] =>
    destruct (returnError_extends r c e b) as [extra Hextra];
    destruct (returnError r c e b) as [[[]|e'] calls'] end.
  all: simpl in *; subst; exists extra; split; [reflexivity|discriminate].
Qed.

End Dispatch.

(** C3.  Resolution is to throw an [HttpError] with status 404 when a
    segment is absent from the children of the node reached.  It does not
    for a segment that is a name every plain object inherits: [toString]
    is no key of the children of the sample tree, whose only key is [foo],
    and resolving it returns the inherited member in place of a node
    instead of throwing; the request for ["/toString"] is then answered
    500, not 404, the read of the verb from the member's missing [methods]
    having thrown. *)
Theorem getQueryResult_returns_inherited_member :
  children foo_tree = Some [("foo", json (JsStr "foo") [])] /\
  assoc "toString" [("foo", json (U := unit) (JsStr "foo") [])] = None /\
  descend foo_tree ["toString"] = None /\
  getQueryResult foo_tree ["toString"] 0 = Return (Inherited "toString") /\
  resolve_request foo_tree (sample_request "GET" "/toString") = Return (Inherited "toString") /\
  forall callback : Callback,
    calls (handleRequest foo_tree (fun _ => Pending) (sample_request "GET" "/toString")
             callback)
    = [{| cb_code := JsNum 500; cb_header := options;
          cb_body := PayloadError (sample_request "GET" "/toString")
                       "Cannot read property GET" JsNull |}].
Proof.
  repeat split; try reflexivity.
  intros callback. unfold handleRequest, handleRequest_try, try_catch, mbind, Effect_bind,
    lift.
  change (resolve_request foo_tree (sample_request "GET" "/toString"))
    with (@Return (Resolved unit) (Inherited "toString")).
  cbv beta iota.
  rewrite (returnError_call (sample_request "GET" "/toString") callback
             (TypeError (rq_method (sample_request "GET" "/toString")))
             {| statusCode := JsNum 500; message := "Cannot read property GET";
                body := JsNull |} [] eq_refl).
  simpl. destruct (callback _); reflexivity.
Qed.

(** C5.  On handler success the callback is invoked with status 200,
    whatever status code the handler's response holds, with the fixed
    headers overlaid by the response's headers, the response's entry
    winning on a shared key, and with the response's body as it is; when
    that invocation returns it is the only one. *)
Theorem success_response_delivery :
  forall (U : Type) (root : ServiceNode U) (auth : AuthAccessor U) (request : Request)
         (callback : Callback) (node : ServiceNode U) (method : RequestHandler U)
         (response : Response),
    resolve_request root request = Return node ->
    assoc (rq_method request) (methods node) = Some method ->
    method request auth = Promise (Fulfilled response) ->
    let args := {| cb_code := JsNum 200;
                   cb_header := rs_headers response ∪ options;
                   cb_body := PayloadValue (rs_body response) |} in
    (exists rest,
       calls (handleRequest root auth request callback) = args :: rest /\
       (callback args = None ->
        rest = [] /\ completion (handleRequest root auth request callback) = Completed)) /\
    (forall name : string,
       cb_header args !! name
       = match rs_headers response !! name with
         | Some value => Some value
         | None => options !! name
         end).
Proof.
  intros U root auth request callback node method response Hnode Hsome Hcall args.
  split.
  - exact (handleRequest_fulfilled root auth request callback node method response
             Hnode Hsome Hcall).
  - intros name. subst args. simpl. rewrite lookup_union.
    destruct (rs_headers response !! name), (options !! name); reflexivity.
Qed.

Lemma success_response_delivery_witness :
  calls (handleRequest created_tree (fun _ => Pending) (sample_request "POST" "")
           (fun _ => None))
  = [{| cb_code := JsNum 200;
        cb_header := {[ "Content-Type" := JsStr "text/plain" ]} ∪ options;
        cb_body := PayloadValue (JsStr "made") |}] /\
  ({[ "Content-Type" := JsStr "text/plain" ]} ∪ options : gmap string JsValue)
    !! "Content-Type" = Some (JsStr "text/plain") /\
  ({[ "Content-Type" := JsStr "text/plain" ]} ∪ options : gmap string JsValue)
    !! "Access-Control-Allow-Origin" = Some (JsStr "*").
Proof.
  destruct (success_response_delivery unit created_tree (fun _ => Pending)
              (sample_request "POST" "")
              (fun _ => None) created_tree
              (fun _ _ => Promise (Fulfilled created_response)) created_response
              eq_refl eq_refl eq_refl) as [(rest & Hcalls & Honly) Hheaders].
  destruct (Honly eq_refl) as [-> _].
  split; [exact Hcalls|].
  split; [exact (Hheaders "Content-Type")|exact (Hheaders "Access-Control-Allow-Origin")].
Defined.

(** Where a missing handler is answered as it is to be: for a verb that
    is no name inherited from [Object.prototype], status 200 for [OPTIONS]
    and status 404 for any other verb, with the fixed header set and an
    empty body. *)
Lemma missing_handler_delivery_own_verbs :
  forall (U : Type) (root : ServiceNode U) (auth : AuthAccessor U) (request : Request)
         (callback : Callback) (node : ServiceNode U),
    resolve_request root request = Return node ->
    assoc (rq_method request) (methods node) = None ->
    inherited (rq_method request) = false ->
    (rq_method request = "OPTIONS" ->
     let args := {| cb_code := JsNum 200; cb_header := options;
                    cb_body := PayloadValue (JsObj []) |} in
     exists rest,
       calls (handleRequest root auth request callback) = args :: rest /\
       (callback args = None ->
        rest = [] /\ completion (handleRequest root auth request callback) = Completed)) /\
    (rq_method request <> "OPTIONS" ->
     let args := {| cb_code := JsNum 404; cb_header := options;
                    cb_body := PayloadValue (JsObj []) |} in
     exists rest,
       calls (handleRequest root auth request callback) = args :: rest /\
       (callback args = None ->
        rest = [] /\ completion (handleRequest root auth request callback) = Completed)).
Proof.
  intros U root auth request callback node Hnode Hnone Hown.
  pose proof (handleRequest_no_handler root auth request callback node Hnode Hnone Hown) as H.
  cbv zeta in H |- *.
  split; intros Hverb.
  - rewrite Hverb in H. exact H.
  - apply String.eqb_neq in Hverb. rewrite Hverb in H. exact H.
Qed.

(** C6.  A request that resolves to a node without a handler for its
    verb is to be answered 404, with the fixed header set and an empty
    body, for any verb other than [OPTIONS].  It is not for a verb that
    is a name every plain object inherits: the node [foo] of the sample
    tree has a handler for [GET] only, and the verb [constructor], no key
    of its methods, reads the inherited member, which is called; the
    request is answered 500 with an error body, not 404 with [{}]. *)
Theorem missing_handler_inherited_verb_answers_500 :
  resolve_request foo_tree (sample_request "constructor" "/foo")
  = Return (ResolvedNode (json (JsStr "foo") [])) /\
  assoc "constructor" (methods (json (U := unit) (JsStr "foo") [])) = None /\
  "constructor" <> "OPTIONS" /\
  forall callback : Callback,
    calls (handleRequest foo_tree (fun _ => Pending) (sample_request "constructor" "/foo")
             callback)
    = [{| cb_code := JsNum 500; cb_header := options;
          cb_body := PayloadError (sample_request "constructor" "/foo")
                       "Cannot call constructor" JsNull |}] /\
    calls (handleRequest foo_tree (fun _ => Pending) (sample_request "constructor" "/foo")
             callback)
    <> [{| cb_code := JsNum 404; cb_header := options;
           cb_body := PayloadValue (JsObj []) |}].
Proof.
  split; [reflexivity|]. split; [reflexivity|]. split; [discriminate|].
  intros callback.
  assert (Hcalls :
    calls (handleRequest foo_tree (fun _ => Pending) (sample_request "constructor" "/foo")
             callback)
    = [{| cb_code := JsNum 500; cb_header := options;
          cb_body := PayloadError (sample_request "constructor" "/foo")
                       "Cannot call constructor" JsNull |}]).
  { unfold handleRequest, handleRequest_try, try_catch, mbind, Effect_bind, lift.
    change (resolve_request foo_tree (sample_request "constructor" "/foo"))
      with (@Return (Resolved unit) (ResolvedNode (json (JsStr "foo") []))).
    cbv beta iota.
    change (assoc (rq_method (sample_request "constructor" "/foo"))
              (methods (json (U := unit) (JsStr "foo") [])))
      with (@None (RequestHandler unit)).
    change (inherited (rq_method (sample_request "constructor" "/foo"))) with true.
    cbv beta iota.
    rewrite (returnError_call (sample_request "constructor" "/foo") callback
               (TypeError_call (rq_method (sample_request "constructor" "/foo")))
               {| statusCode := JsNum 500; message := "Cannot call constructor";
                  body := JsNull |} [] eq_refl).
    simpl. destruct (callback _); reflexivity. }
  split; [exact Hcalls|]. rewrite Hcalls. discriminate.
Qed.

(** ** One response per request *)






(** C1.  The contract fails where a handler's promise rejects with
    [undefined]: behind [authenticate], with an accessor that rejects
    without a reason, [getError] reads [statusCode] from [undefined] and
    throws inside [returnError], so the callback is never invoked and the
    rejection stays unhandled. *)
Theorem handleRequest_rejected_undefined_never_calls_back :
  forall callback : Callback,
    authenticate echo_user (sample_request "GET" "") rejecting_auth
    = Promise (Rejected (ThrownValue JsUndefined)) /\
    getError (ThrownValue JsUndefined) = Throw (TypeError "statusCode") /\
    handleRequest guarded_tree rejecting_auth (sample_request "GET" "") callback
    = {| calls := []; completion := UnhandledRejection (TypeError "statusCode") |}.
Proof.
  intros callback. repeat split; reflexivity.
Qed.

(** A callback that throws is invoked a second time: the invocations of
    the [try] block and of [returnResponse] are themselves guarded by the
    error path. *)
Lemma handleRequest_throwing_callback_called_twice :
  length (calls (handleRequest foo_tree (fun _ => Pending) (sample_request "OPTIONS" "/foo")
                   throwing_callback)) = 2%nat /\
  length (calls (handleRequest foo_tree (fun _ => Pending) (sample_request "GET" "/foo")
                   throwing_callback)) = 2%nat.
Proof. split; reflexivity. Qed.

(** ** Request data *)

(** C7.  [getRequestData] returns the request's query for [GET] and
    [DELETE]; for any other method it returns the JSON-decoded body when
    the body is non-empty, and a falsy value, never an error, when the body
    is empty or missing. *)
Theorem getRequestData_by_method :
  forall (JSON_parse : string -> Exc JsValue) (request : Request),
    (rq_method request = "GET" \/ rq_method request = "DELETE" ->
     getRequestData JSON_parse request = Return (rq_query request)) /\
    (rq_method request <> "GET" -> rq_method request <> "DELETE" ->
     (forall b : string,
        rq_body request = Some b -> b <> "" ->
        getRequestData JSON_parse request = JSON_parse b) /\
     (rq_body request = None \/ rq_body request = Some "" ->
      exists absent : JsValue,
        getRequestData JSON_parse request = Return absent /\ truthy absent = false)).
Proof.
  intros JSON_parse request. unfold getRequestData. split.
  - intros [-> | ->]; reflexivity.
  - intros Hget Hdelete.
    apply String.eqb_neq in Hget. apply String.eqb_neq in Hdelete.
    rewrite Hget, Hdelete. simpl. split.
    + intros b -> Hb. destruct b as [|a rest]; [congruence|]. reflexivity.
    + intros [-> | ->].
      * exists JsUndefined. split; reflexivity.
      * exists (JsStr ""). split; reflexivity.
Qed.

Lemma getRequestData_by_method_witness :
  getRequestData (fun text => Return (JsStr text)) (sample_request "DELETE" "/foo")
  = Return JsUndefined /\
  getRequestData (fun text => Return (JsStr text))
    {| rq_method := "POST"; rq_path := Some "/foo"; rq_headers := ∅;
       rq_query := JsNull; rq_body := Some "{}" |}
  = Return (JsStr "{}") /\
  exists absent : JsValue,
    getRequestData (fun text => Return (JsStr text))
      {| rq_method := "PUT"; rq_path := Some "/foo"; rq_headers := ∅;
         rq_query := JsNull; rq_body := Some "" |}
    = Return absent /\ truthy absent = false.
Proof.
  split; [|split].
  - apply getRequestData_by_method. right. reflexivity.
  - refine (proj1 (proj2 (getRequestData_by_method _ _) _ _) "{}" _ _);
      simpl; congruence.
  - refine (proj2 (proj2 (getRequestData_by_method _ _) _ _) _);
      simpl; [discriminate|discriminate|right; reflexivity].
Defined.

(** ** The authentication wrapper *)

(** C8.  The handler [authenticate] returns first awaits the accessor,
    then awaits the wrapped handler on the user obtained and the request,
    and fulfils with status 200, empty headers and the handler's result as
    body.  When the accessor rejects, the wrapped handler is not invoked
    and the promise rejects with the same value; a rejection of the wrapped
    handler passes through unchanged as well. *)
Theorem authenticate_awaits_accessor_then_handler :
  forall (U : Type) (handler : U -> Request -> Awaited JsValue)
         (request : Request) (auth : AuthAccessor U),
    authenticate handler request auth
    = Promise (fst (authenticate_body handler request auth [])) /\
    (forall (user : U) (result : JsValue),
       auth tt = Fulfilled user ->
       handler user request = Fulfilled result ->
       authenticate_body handler request auth []
       = (Fulfilled {| rs_statusCode := JsNum 200; rs_headers := ∅; rs_body := result |},
          [InvokedAuth; InvokedHandler user request])) /\
    (forall e : Thrown,
       auth tt = Rejected e ->
       authenticate_body handler request auth [] = (Rejected e, [InvokedAuth])) /\
    (forall (user : U) (e : Thrown),
       auth tt = Fulfilled user ->
       handler user request = Rejected e ->
       authenticate_body handler request auth []
       = (Rejected e, [InvokedAuth; InvokedHandler user request])).
Proof.
  intros U handler request auth.
  split; [reflexivity|].
  unfold authenticate_body, await_auth, await_handler, mbind, Async_bind, mret, Async_ret.
  simpl. repeat split.
  - intros user result -> ->. reflexivity.
  - intros e ->. reflexivity.
  - intros user e -> ->. reflexivity.
Qed.

Lemma authenticate_awaits_accessor_then_handler_witness :
  authenticate_body echo_user (sample_request "GET" "") (fun _ => Fulfilled "ann") []
  = (Fulfilled {| rs_statusCode := JsNum 200; rs_headers := ∅; rs_body := JsStr "ann" |},
     [InvokedAuth; InvokedHandler "ann" (sample_request "GET" "")]) /\
  authenticate_body echo_user (sample_request "GET" "") rejecting_auth []
  = (Rejected (ThrownValue JsUndefined), [InvokedAuth]) /\
  authenticate_body (fun _ _ => Rejected (ThrownValue forbidden_error))
    (sample_request "GET" "") (fun _ : unit => Fulfilled "ann") []
  = (Rejected (ThrownValue forbidden_error),
     [InvokedAuth; InvokedHandler "ann" (sample_request "GET" "")]).
Proof.
  split; [|split].
  - apply (authenticate_awaits_accessor_then_handler string echo_user
             (sample_request "GET" "") (fun _ => Fulfilled "ann")); reflexivity.
  - apply (authenticate_awaits_accessor_then_handler string echo_user
             (sample_request "GET" "") rejecting_auth); reflexivity.
  - apply (authenticate_awaits_accessor_then_handler string
             (fun _ _ => Rejected (ThrownValue forbidden_error)) (sample_request "GET" "")
             (fun _ => Fulfilled "ann")); reflexivity.
Defined.

(** * Further properties of the code *)

(** ** Splitting *)

Section SplitFacts.

Variable sep : ascii.

Lemma split_app_pieces (first rest : string) :
  Js.split sep (first +:+ String sep rest) = Js.split sep first ++ Js.split sep rest.
Proof.
  induction first as [|a first IH].
  - simpl. rewrite Ascii.eqb_refl. reflexivity.
  - change (String a first +:+ String sep rest) with (String a (first +:+ String sep rest)).
    simpl. rewrite IH.
    destruct (Ascii.eqb a sep); [reflexivity|].
    pose proof (split_nonempty sep first) as Hne.
    destruct (Js.split sep first) as [|piece others]; [congruence|reflexivity].
Qed.

Lemma split_pieces_without_sep (str : string) :
  Forall (fun piece => Js.occurs sep piece = false) (Js.split sep str).
Proof.
  induction str as [|a rest IH]; simpl.
  - repeat constructor.
  - destruct (Ascii.eqb a sep) eqn:Ha.
    + constructor; [reflexivity|exact IH].
    + destruct (Js.split sep rest) as [|piece others]; [repeat constructor; simpl; now rewrite Ha|].
      inversion IH as [|? ? Hpiece Hothers]; subst.
      constructor; [simpl; rewrite Ha; exact Hpiece|exact Hothers].
Qed.

Lemma split_pieces_keep_absent (c : ascii) (str : string) :
  Js.occurs c str = false ->
  Forall (fun piece => Js.occurs c piece = false) (Js.split sep str).
Proof.
  induction str as [|a rest IH]; simpl.
  - intros _. repeat constructor.
  - intros H. apply orb_false_iff in H as [Ha Hrest]. specialize (IH Hrest).
    destruct (Ascii.eqb a sep).
    + constructor; [reflexivity|exact IH].
    + destruct (Js.split sep rest) as [|piece others]; [repeat constructor; simpl; now rewrite Ha|].
      inversion IH as [|? ? Hpiece Hothers]; subst.
      constructor; [simpl; rewrite Ha; exact Hpiece|exact Hothers].
Qed.

Lemma occurs_first (str : string) :
  Js.occurs sep str = true ->
  exists first rest, str = first +:+ String sep rest /\ Js.occurs sep first = false.
Proof.
  induction str as [|a str IH]; simpl; [discriminate|].
  destruct (Ascii.eqb_spec a sep) as [->|Hne]; simpl.
  - intros _. exists EmptyString, str. split; reflexivity.
  - intros H. destruct (IH H) as (first & rest & -> & Hfirst).
    exists (String a first), rest. split; [reflexivity|].
    simpl. rewrite Hfirst. apply Ascii.eqb_neq in Hne. rewrite Hne. reflexivity.
Qed.

End SplitFacts.

(** ** Paths *)

(** X1.  [readParts] gives the empty sequence for the absent and the empty path
    only: every other path has at least one segment. *)
Theorem readParts_empty_iff :
  forall path : option string,
    readParts path = [] <-> path = None \/ path = Some "".
Proof.
  intros [[|c rest]|]; simpl.
  - split; [right; reflexivity|reflexivity].
  - split.
    + intros H. exfalso. exact (split_nonempty _ _ H).
    + intros [H|H]; discriminate.
  - split; [left; reflexivity|reflexivity].
Qed.

(** X2.  No segment [readParts] returns holds a [/]. *)
Theorem readParts_segments_without_slash :
  forall path : option string,
    Forall (fun segment => Js.occurs "/" segment = false) (readParts path).
Proof.
  intros [[|c rest]|]; simpl; try constructor.
  apply split_pieces_without_sep.
Qed.

(** X3.  Segmenting distributes over joining paths: for a non-empty path
    followed by a sub-path that starts with [/], the segments are those of
    the path followed by those of the sub-path.  Nothing is collapsed: a
    trailing or doubled [/] shows as an empty segment. *)
Theorem readParts_app :
  forall (path rest : string),
    path <> "" ->
    readParts (Some (path +:+ String "/" rest))
    = readParts (Some path) ++ readParts (Some (String "/" rest)).
Proof.
  intros [|c path] rest Hne; [congruence|].
  change (String c path +:+ String "/" rest) with (String c (path +:+ String "/" rest)).
  simpl. apply split_app_pieces.
Qed.

Lemma readParts_app_witness :
  readParts (Some ("/a/" +:+ String "/" "b/"))
  = readParts (Some "/a/") ++ readParts (Some "/b/") /\
  readParts (Some "/a//b/") = ["a"; ""; "b"; ""].
Proof.
  split; [|reflexivity].
  apply (readParts_app "/a/" "b/"). discriminate.
Defined.

(** X4.  [parsePath] splits at the first [?] and nowhere else: either the
    string holds no [?], and it is the path with a [null] query, or it is a
    path without [?], a [?], and a suffix, and the query is [readValues] of
    that whole suffix. *)
Theorem parsePath_decomposition :
  forall str : string,
    (Js.occurs "?" str = false /\
     parsePath str = {| pp_path := str; pp_query := None |}) \/
    (exists path suffix,
       str = path +:+ String "?" suffix /\
       Js.occurs "?" path = false /\
       parsePath str = {| pp_path := path; pp_query := Some (readValues suffix) |}).
Proof.
  intros str. destruct (Js.occurs "?" str) eqn:Hq.
  - right. destruct (occurs_first _ _ Hq) as (path & suffix & -> & Hpath).
    exists path, suffix. repeat split; [exact Hpath|].
    apply parsePath_with_query, Hpath.
  - left. split; [reflexivity|]. apply parsePath_without_query, Hq.
Qed.

(** X5.  The path [parsePath] returns never holds a [?], and its query is
    [null] exactly when the string holds none. *)
Theorem parsePath_path_without_query :
  forall str : string,
    Js.occurs "?" (pp_path (parsePath str)) = false /\
    (pp_query (parsePath str) = None <-> Js.occurs "?" str = false).
Proof.
  intros str. destruct (Js.occurs "?" str) eqn:Hq.
  - destruct (occurs_first _ _ Hq) as (path & suffix & -> & Hpath).
    rewrite (parsePath_with_query _ _ Hpath). simpl.
    split; [exact Hpath|]. split; discriminate.
  - rewrite (parsePath_without_query _ Hq). simpl.
    split; [exact Hq|]. split; reflexivity.
Qed.

(** ** Query suffixes *)

Lemma length_app_zero (a b : string) :
  String.length (a +:+ b) = 0%nat -> a = "" /\ b = "".
Proof.
  destruct a as [|x a]; simpl; [|discriminate].
  destruct b; [split; reflexivity|discriminate].
Qed.

Lemma assoc_app {A : Type} (key : string) (front back : list (string * A)) :
  assoc key (front ++ back)
  = match assoc key front with
    | Some value => Some value
    | None => assoc key back
    end.
Proof.
  induction front as [|[k v] front IH]; simpl; [reflexivity|].
  destruct (String.eqb k key); [reflexivity|exact IH].
Qed.

Lemma fold_readValues_step_lookup (pairs : list (string * string))
    (values : gmap string JsValue) (key : string) :
  Forall (fun kv => plain (fst kv) = true /\ plain (snd kv) = true) pairs ->
  fold_left readValues_step (map pair_text pairs) values !! key
  = if String.eqb key "__proto__" then values !! key
    else match assoc key (rev pairs) with
         | Some value => Some (JsStr value)
         | None => values !! key
         end.
Proof.
  intros Hall. revert values.
  induction Hall as [|[k v] pairs [Hk Hv] _ IH]; intros values.
  - simpl. destruct (String.eqb key "__proto__"); reflexivity.
  - simpl. rewrite IH, assoc_app, (readValues_step_pair values k v Hk Hv). simpl.
    destruct (String.eqb_spec key "__proto__") as [->|Hkey].
    + destruct (String.eqb_spec k "__proto__") as [->|Hne]; [reflexivity|].
      apply lookup_insert_ne, Hne.
    + destruct (assoc key (rev pairs)); [reflexivity|].
      destruct (String.eqb_spec k key) as [->|Hne].
      * apply String.eqb_neq in Hkey. rewrite Hkey. apply lookup_insert_eq.
      * destruct (String.eqb k "__proto__"); [reflexivity|].
        apply lookup_insert_ne, Hne.
Qed.

(** X6.  Among pairs with the same key the last one wins: for a key other
    than [__proto__], the value [readValues] holds is that of the last
    pair with that key, and a key of no pair is absent; the key
    [__proto__] is never held. *)
Theorem readValues_last_pair_wins :
  forall (pairs : list (string * string)) (key : string),
    Forall (fun kv => plain (fst kv) = true /\ plain (snd kv) = true) pairs ->
    (key <> "__proto__" ->
     readValues (query_text pairs) !! key = JsStr <$> assoc key (rev pairs)) /\
    readValues (query_text pairs) !! "__proto__" = None.
Proof.
  intros pairs key Hall. rewrite (readValues_split_pairs pairs Hall).
  rewrite !fold_readValues_step_lookup by exact Hall. split.
  - intros Hkey. apply String.eqb_neq in Hkey. rewrite Hkey, lookup_empty.
    destruct (assoc key (rev pairs)); reflexivity.
  - apply lookup_empty.
Qed.

Lemma readValues_last_pair_wins_witness :
  readValues (query_text [("a", "1"); ("__proto__", "2"); ("a", "3")]) !! "a"
  = JsStr <$> assoc "a" (rev [("a", "1"); ("__proto__", "2"); ("a", "3")]) /\
  readValues (query_text [("a", "1"); ("__proto__", "2"); ("a", "3")]) !! "__proto__" = None /\
  readValues "a=1&__proto__=2&a=3" !! "a" = Some (JsStr "3").
Proof.
  destruct (readValues_last_pair_wins [("a", "1"); ("__proto__", "2"); ("a", "3")] "a")
    as [Hlast Hproto]; [repeat constructor|].
  split; [apply Hlast; discriminate|].
  split; [exact Hproto|vm_compute; reflexivity].
Defined.

(** X7.  A part without [=] is kept as a key whose value is [undefined]: a
    non-empty suffix that holds neither [&] nor [=], other than
    [__proto__], gives the one-entry mapping from the whole suffix to
    [undefined]. *)
Theorem readValues_bare_key :
  forall str : string,
    str <> "" -> plain str = true -> str <> "__proto__" ->
    readValues str = {[ str := JsUndefined ]}.
Proof.
  intros str Hne Hplain Hown. apply plain_parts in Hplain as [Hamp Heq].
  apply String.eqb_neq in Hown.
  unfold readValues.
  destruct (Nat.eqb_spec (String.length str) 0) as [H0|_].
  - destruct str; [congruence|discriminate].
  - rewrite (split_absent _ _ Hamp). simpl. unfold readValues_step.
    rewrite (split_absent _ _ Heq). simpl. rewrite Hown. reflexivity.
Qed.

Lemma readValues_bare_key_witness :
  readValues "debug" = {[ "debug" := JsUndefined ]}.
Proof. apply readValues_bare_key; [discriminate|reflexivity|discriminate]. Defined.

(** X8.  A value is cut at its first [=]: in a part [key=value=more], for
    a key other than [__proto__], whatever follows the second [=] is
    dropped. *)
Theorem readValues_value_cut_at_equals :
  forall key value more : string,
    plain key = true -> plain value = true -> Js.occurs "&" more = false ->
    key <> "__proto__" ->
    readValues (key +:+ String "=" (value +:+ String "=" more))
    = {[ key := JsStr value ]}.
Proof.
  intros key value more Hkey Hvalue Hmore Hown. apply String.eqb_neq in Hown.
  apply plain_parts in Hkey as [Hkamp Hkeq]. apply plain_parts in Hvalue as [Hvamp Hveq].
  unfold readValues.
  destruct (Nat.eqb_spec (String.length (key +:+ String "=" (value +:+ String "=" more))) 0)
    as [H0|_].
  - apply length_app_zero in H0 as [_ H0]. discriminate.
  - rewrite split_absent.
    + simpl. unfold readValues_step.
      rewrite (split_app _ _ _ Hkeq), (split_app _ _ _ Hveq). simpl.
      rewrite Hown. reflexivity.
    + rewrite occurs_app. simpl. rewrite occurs_app. simpl.
      rewrite Hkamp, Hvamp, Hmore. reflexivity.
Qed.

Lemma readValues_value_cut_at_equals_witness :
  readValues ("token" +:+ String "=" ("abc" +:+ String "=" "=")) = {[ "token" := JsStr "abc" ]}.
Proof. apply readValues_value_cut_at_equals; try reflexivity. discriminate. Defined.

Lemma readValues_step_plain (values : gmap string JsValue) (part : string) :
  Js.occurs "&" part = false ->
  map_Forall plain_entry values ->
  map_Forall plain_entry (readValues_step values part).
Proof.
  intros Hamp Hvalues. unfold readValues_step.
  pose proof (split_pieces_without_sep "=" part) as Heq.
  pose proof (split_pieces_keep_absent "=" "&" part Hamp) as Hkeep.
  pose proof (split_nonempty "=" part) as Hne.
  destruct (Js.split "=" part) as [|key others]; [congruence|].
  inversion Heq as [|? ? Hkeq Hoeq]; subst. inversion Hkeep as [|? ? Hkamp Hoamp]; subst.
  simpl nth. destruct (String.eqb key "__proto__"); [exact Hvalues|].
  apply map_Forall_insert_2; [|exact Hvalues].
  split.
  - unfold plain. simpl. rewrite Hkamp, Hkeq. reflexivity.
  - destruct others as [|value others]; simpl; [left; reflexivity|].
    inversion Hoeq as [|? ? Hveq _]; subst. inversion Hoamp as [|? ? Hvamp _]; subst.
    right. exists value. split; [reflexivity|].
    unfold plain. rewrite Hvamp, Hveq. reflexivity.
Qed.

Lemma fold_readValues_step_plain (parts : list string) (values : gmap string JsValue) :
  Forall (fun part => Js.occurs "&" part = false) parts ->
  map_Forall plain_entry values ->
  map_Forall plain_entry (fold_left readValues_step parts values).
Proof.
  intros Hparts. revert values.
  induction Hparts as [|part parts Hpart _ IH]; intros values Hvalues; [exact Hvalues|].
  simpl. apply IH, readValues_step_plain; assumption.
Qed.

(** X9.  Whatever the suffix, no key of the mapping [readValues] returns holds
    a [&] or a [=], and every value is [undefined] or a string that holds
    neither: nothing is decoded and no separator survives. *)
Theorem readValues_entries_plain :
  forall (str key : string) (value : JsValue),
    readValues str !! key = Some value ->
    plain key = true /\
    (value = JsUndefined \/ exists text, value = JsStr text /\ plain text = true).
Proof.
  intros str key value Hlookup.
  assert (Hall : map_Forall plain_entry (readValues str)).
  { unfold readValues. destruct (String.length str =? 0)%nat.
    - apply map_Forall_empty.
    - apply fold_readValues_step_plain; [apply split_pieces_without_sep|apply map_Forall_empty]. }
  exact (Hall key value Hlookup).
Qed.

Lemma readValues_entries_plain_witness :
  plain "b" = true /\
  (JsStr "2" = JsUndefined \/ exists text, JsStr "2" = JsStr text /\ plain text = true).
Proof.
  apply (readValues_entries_plain "a=1&b=2=x&c" "b" (JsStr "2")). vm_compute. reflexivity.
Defined.

(** ** More on resolution *)

Section ResolutionFacts.

Context {U : Type}.
Implicit Types (node : Resolved U) (paths : list string).

Lemma getQueryResult_app_bind node (before after : list string) :
  getQueryResult node (before ++ after) 0
  = reached ← getQueryResult node before 0; getQueryResult reached after 0.
Proof.
  revert node. induction before as [|tag before IH]; intros node.
  - reflexivity.
  - simpl app. rewrite !getQueryResult_cons.
    destruct (invoke node tag) as [child|e]; [|reflexivity].
    cbn. apply IH.
Qed.

Lemma invoke_throws_404 node (tag : string) (e : Thrown) :
  invoke node tag = Throw e ->
  exists msg, e = ThrownHttpError {| statusCode := JsNum 404; message := msg; body := JsNull |}.
Proof.
  unfold invoke. destruct (children_of node) as [cs|].
  - destruct (children_lookup cs tag); [discriminate|]. intros [= <-]. eexists. reflexivity.
  - intros [= <-]. eexists. reflexivity.
Qed.

Lemma getQueryResult_from_throws_404 (remaining : nat) node paths (index : nat) (e : Thrown) :
  getQueryResult_from remaining node paths index = Throw e ->
  exists msg, e = ThrownHttpError {| statusCode := JsNum 404; message := msg; body := JsNull |}.
Proof.
  revert node index. induction remaining as [|remaining IH]; intros node index; simpl.
  - discriminate.
  - destruct (invoke node (nth index paths "undefined")) as [result|e'] eqn:Hinvoke; cbn.
    + apply IH.
    + intros [= <-]. exact (invoke_throws_404 _ _ _ Hinvoke).
Qed.

End ResolutionFacts.

(** X10.  Resolution composes: resolving a sequence of segments followed by
    another is resolving the first from the node, then the second from the
    node reached; a failure on the first is the failure of the whole. *)
Theorem getQueryResult_compose :
  forall (U : Type) (node : ServiceNode U) (before after : list string),
    getQueryResult node (before ++ after) 0
    = reached ← getQueryResult node before 0; getQueryResult reached after 0.
Proof. intros U node. apply getQueryResult_app_bind. Qed.

(** X11.  Whatever the tree and the segments, resolution from an index within
    the array fails with nothing but an [HttpError] of status 404 and a
    [null] body. *)
Theorem getQueryResult_throws_only_404 :
  forall (U : Type) (node : ServiceNode U) (paths : list string) (index : nat) (e : Thrown),
    (index <= length paths)%nat ->
    getQueryResult node paths index = Throw e ->
    exists msg,
      e = ThrownHttpError {| statusCode := JsNum 404; message := msg; body := JsNull |}.
Proof.
  intros U node paths index e _. apply getQueryResult_from_throws_404.
Qed.

Lemma getQueryResult_throws_only_404_witness :
  exists msg,
    ThrownHttpError {| statusCode := JsNum 404;
                       message := "Resource not found: bar. Did you mean foo?";
                       body := JsNull |}
    = ThrownHttpError {| statusCode := JsNum 404; message := msg; body := JsNull |}.
Proof.
  apply (getQueryResult_throws_only_404 unit foo_tree ["bar"] 0); [simpl; lia|reflexivity].
Defined.

(** X12.  Resolution from an index within the array ignores the segments before
    it: it is resolution of the remaining segments from index 0. *)
Theorem getQueryResult_from_index :
  forall (U : Type) (node : ServiceNode U) (paths : list string) (index : nat),
    (index <= length paths)%nat ->
    getQueryResult node paths index = getQueryResult node (drop index paths) 0.
Proof.
  intros U node paths index Hle. unfold getQueryResult.
  rewrite length_drop, Nat.sub_0_r.
  rewrite <- (take_drop index paths) at 2.
  pose proof (getQueryResult_from_shift (length paths - index) node
                (take index paths) (drop index paths) 0) as H.
  rewrite length_take, Nat.add_0_r in H.
  replace (index `min` length paths)%nat with index in H by lia.
  exact H.
Qed.

Lemma getQueryResult_from_index_witness :
  getQueryResult foo_tree ["nowhere"; "foo"] 1 = getQueryResult foo_tree (drop 1 ["nowhere"; "foo"]) 0.
Proof. apply getQueryResult_from_index. simpl. lia. Defined.

(** X13.  No node resolves below a leaf built by [httpGet], [httpPost] or
    [httpPut]: a further segment that is no name inherited from
    [Object.prototype] fails with a 404 that names the segment and lists
    no alternative. *)
Theorem leaf_nodes_have_no_children :
  forall (U : Type) (handler : RequestHandler U) (tag : string) (rest : list string),
    inherited tag = false ->
    let failure :=
      Throw (ThrownHttpError
               {| statusCode := JsNum 404;
                  message := "Resource not found: " +:+ tag +:+ ". Did you mean ?";
                  body := JsNull |}) in
    getQueryResult (httpGet handler) (tag :: rest) 0 = failure /\
    getQueryResult (httpPost handler) (tag :: rest) 0 = failure /\
    getQueryResult (httpPut handler) (tag :: rest) 0 = failure.
Proof.
  intros U handler tag rest Hown failure. subst failure.
  rewrite !getQueryResult_cons. unfold invoke, children_lookup. simpl. rewrite Hown.
  repeat split; reflexivity.
Qed.

Lemma leaf_nodes_have_no_children_witness :
  getQueryResult (httpPost (U := unit) (fun _ _ => Promise Pending)) ["items"; "7"] 0
  = Throw (ThrownHttpError
             {| statusCode := JsNum 404;
                message := "Resource not found: items. Did you mean ?";
                body := JsNull |}).
Proof.
  apply (leaf_nodes_have_no_children unit (fun _ _ => Promise Pending) "items" ["7"]).
  reflexivity.
Defined.

(** X14.  Resolving a joined path is resolving the path, then the sub-path from
    the node reached: segmentation and resolution compose. *)
Theorem resolution_of_joined_paths :
  forall (U : Type) (root : ServiceNode U) (path rest : string),
    path <> "" ->
    getQueryResult root (readParts (Some (path +:+ String "/" rest))) 0
    = reached ← getQueryResult root (readParts (Some path)) 0;
      getQueryResult reached (readParts (Some (String "/" rest))) 0.
Proof.
  intros U root [|c path] rest Hne; [congruence|].
  change (String c path +:+ String "/" rest) with (String c (path +:+ String "/" rest)).
  simpl readParts. rewrite split_app_pieces. apply getQueryResult_app_bind.
Qed.

Lemma resolution_of_joined_paths_witness :
  getQueryResult bare_tree (readParts (Some ("/leaf" +:+ String "/" "x"))) 0
  = reached ← getQueryResult bare_tree (readParts (Some "/leaf")) 0;
    getQueryResult reached (readParts (Some (String "/" "x"))) 0.
Proof. apply (resolution_of_joined_paths unit bare_tree "/leaf" "x"). discriminate. Defined.

(** ** More on the error normaliser *)


(** X16.  An error that [getError] wraps, one that is no [HttpError] instance,
    never comes out with a falsy status code or an [undefined] body: the
    code is the value's own truthy status code or 500. *)
Theorem getError_wrapped_status_truthy :
  forall (v : JsValue) (httpError : HttpError),
    getError (ThrownValue v) = Return httpError ->
    truthy (statusCode httpError) = true /\
    body httpError <> JsUndefined /\
    (get v "statusCode" = Return (statusCode httpError) \/
     statusCode httpError = JsNum 500).
Proof.
  intros v httpError. unfold getError.
  destruct (get v "statusCode") as [code|e] eqn:Hcode; cbn; [|discriminate].
  pose proof (get_Return_not_nullish _ _ _ Hcode) as Hv.
  destruct (get_not_nullish v "message" Hv) as [msg ->].
  destruct (get_not_nullish v "body" Hv) as [bdy ->].
  destruct (truthy code) eqn:Htruthy; cbn; intros [= <-]; simpl.
  - split; [exact Htruthy|]. split; [destruct bdy; discriminate|left; reflexivity].
  - split; [reflexivity|]. split; [discriminate|right; reflexivity].
Qed.

Lemma getError_wrapped_status_truthy_witness :
  truthy (JsNum 500) = true /\
  JsNull <> JsUndefined /\
  (get zero_status_error "statusCode" = Return (JsNum 500) \/ JsNum 500 = JsNum 500).
Proof.
  apply (getError_wrapped_status_truthy zero_status_error
           {| statusCode := JsNum 500; message := "gone"; body := JsNull |}).
  reflexivity.
Defined.

(** ** More on the dispatch pipeline *)

Lemma returnError_shape (request : Request) (callback : Callback) (error : Thrown)
    (before : list CallbackArgs) :
  (exists httpError,
     getError error = Return httpError /\
     returnError request callback error before
     = (match callback {| cb_code := statusCode httpError; cb_header := options;
                          cb_body := PayloadError request (message httpError)
                                                  (body httpError) |} with
        | None => Return tt
        | Some e => Throw e
        end,
        before ++ [{| cb_code := statusCode httpError; cb_header := options;
                      cb_body := PayloadError request (message httpError)
                                              (body httpError) |}])) \/
  (exists e, getError error = Throw e /\
             returnError request callback error before = (Throw e, before)).
Proof.
  destruct (getError error) as [httpError|e] eqn:Herr.
  - left. exists httpError. split; [reflexivity|]. exact (returnError_call _ _ _ _ _ Herr).
  - right. exists e. split; [reflexivity|]. exact (returnError_throws _ _ _ _ _ Herr).
Qed.

Ltac pipeline_cases root auth request callback :=
  unfold_pipeline;
  let node := fresh "node" in
  let method := fresh "method" in
  destruct (resolve_request root request) as [[node|?]|?] eqn:Hresolve; simpl;
  [ destruct (assoc (rq_method request) (methods node)) as [method|] eqn:Hmethod; simpl;
    [ destruct (method request auth) as [?|[?|?|]] eqn:Hcall; simpl
    | destruct (inherited (rq_method request)) eqn:Hinherited; simpl;
      [ | destruct (String.eqb (rq_method request) "OPTIONS") eqn:Hverb; simpl ] ]
  | | ];
  repeat (match goal with
          | |- context [returnError ?r ?c ?e ?b] =>
              let h := fresh "httpError" in
              let He := fresh "Herror" in
              destruct (returnError_shape r c e b) as [(h & He & ->)|(h & He & ->)]
          | |- context [match ?x with Some _ => _ | None => _ end] => destruct x eqn:?
          end; simpl).

(** X17.  The callback is never invoked more than twice, and never more than
    once when it returns, whatever the tree, the handler and the
    accessor do. *)
Theorem handleRequest_at_most_two_calls :
  forall (U : Type) (root : ServiceNode U) (auth : AuthAccessor U) (request : Request)
         (callback : Callback),
    (length (calls (handleRequest root auth request callback)) <= 2)%nat /\
    ((forall args, callback args = None) ->
     (length (calls (handleRequest root auth request callback)) <= 1)%nat).
Proof.
  intros U root auth request callback. split.
  - pipeline_cases root auth request callback; lia.
  - intros Hcb. pipeline_cases root auth request callback; try lia.
    all: match goal with H : _ = Some _ |- _ => rewrite Hcb in H; discriminate end.
Qed.

Lemma handleRequest_at_most_two_calls_witness :
  (length (calls (handleRequest guarded_tree rejecting_auth (sample_request "GET" "")
                    (fun _ => None))) <= 1)%nat.
Proof.
  apply (handleRequest_at_most_two_calls string guarded_tree rejecting_auth
           (sample_request "GET" "") (fun _ => None)).
  reflexivity.
Defined.

(** X18.  Every invocation of the callback, on every path, carries each header
    of the fixed set. *)
Theorem handleRequest_fixed_headers_present :
  forall (U : Type) (root : ServiceNode U) (auth : AuthAccessor U) (request : Request)
         (callback : Callback),
    Forall (fun call => forall name : string,
                is_Some (options !! name) -> is_Some (cb_header call !! name))
           (calls (handleRequest root auth request callback)).
Proof.
  intros U root auth request callback.
  pipeline_cases root auth request callback.
  all: repeat (apply List.Forall_cons; [simpl; intros header Hheader|]);
    try apply List.Forall_nil.
  all: try exact Hheader.
  all: apply lookup_union_is_Some; right; exact Hheader.
Qed.

(** X19.  A handler whose promise never settles leaves the request unanswered:
    the callback is never invoked, there being no timeout. *)
Theorem handleRequest_pending_handler :
  forall (U : Type) (root : ServiceNode U) (auth : AuthAccessor U) (request : Request)
         (callback : Callback) (node : ServiceNode U) (method : RequestHandler U),
    resolve_request root request = Return node ->
    assoc (rq_method request) (methods node) = Some method ->
    method request auth = Promise Pending ->
    handleRequest root auth request callback = {| calls := []; completion := NeverSettles |}.
Proof.
  intros U root auth request callback node method Hnode Hmethod Hcall.
  unfold_pipeline. rewrite Hnode, Hmethod, Hcall. reflexivity.
Qed.

Lemma handleRequest_pending_handler_witness :
  handleRequest (httpGet (U := unit) (fun _ _ => Promise Pending)) (fun _ => Pending)
    (sample_request "GET" "") throwing_callback
  = {| calls := []; completion := NeverSettles |}.
Proof.
  apply (handleRequest_pending_handler unit _ _ _ _
           (httpGet (fun _ _ => Promise Pending)) (fun _ _ => Promise Pending));
    reflexivity.
Defined.

(** X20.  A handler that throws before returning and a handler whose promise
    rejects are answered alike: for an error [getError] can read, the
    callback is invoked exactly once, with the normalised error's status
    code, the fixed headers and the error body, whether or not that
    invocation returns. *)
Theorem handleRequest_failure_delivery :
  forall (U : Type) (root : ServiceNode U) (auth : AuthAccessor U) (request : Request)
         (callback : Callback) (node : ServiceNode U) (method : RequestHandler U)
         (error : Thrown) (httpError : HttpError),
    resolve_request root request = Return node ->
    assoc (rq_method request) (methods node) = Some method ->
    method request auth = Throws error \/ method request auth = Promise (Rejected error) ->
    getError error = Return httpError ->
    calls (handleRequest root auth request callback)
    = [{| cb_code := statusCode httpError; cb_header := options;
          cb_body := PayloadError request (message httpError) (body httpError) |}] /\
    (callback {| cb_code := statusCode httpError; cb_header := options;
                 cb_body := PayloadError request (message httpError) (body httpError) |}
     = None ->
     completion (handleRequest root auth request callback) = Completed).
Proof.
  intros U root auth request callback node method error httpError Hnode Hmethod Hcall Herror.
  unfold_pipeline. rewrite Hnode, Hmethod.
  destruct Hcall as [-> | ->]; simpl;
    rewrite (returnError_call _ _ _ _ _ Herror); simpl.
  all: match goal with |- context [match ?x with Some _ => _ | None => _ end] =>
         destruct x eqn:Hcb end; simpl.
  all: split; [reflexivity|]; intros H; try discriminate; reflexivity.
Qed.

Lemma handleRequest_failure_delivery_witness :
  calls (handleRequest (httpGet (U := unit) (fun _ _ => Throws (ThrownValue forbidden_error)))
           (fun _ => Pending) (sample_request "GET" "") (fun _ => None))
  = [{| cb_code := JsNum 403; cb_header := options;
        cb_body := PayloadError (sample_request "GET" "") "Forbidden" JsNull |}] /\
  calls (handleRequest
           (httpGet (U := unit) (fun _ _ => Promise (Rejected (ThrownValue forbidden_error))))
           (fun _ => Pending) (sample_request "GET" "") (fun _ => None))
  = [{| cb_code := JsNum 403; cb_header := options;
        cb_body := PayloadError (sample_request "GET" "") "Forbidden" JsNull |}].
Proof.
  split.
  - apply (handleRequest_failure_delivery unit _ (fun _ => Pending) (sample_request "GET" "")
             (fun _ => None) (httpGet (fun _ _ => Throws (ThrownValue forbidden_error)))
             (fun _ _ => Throws (ThrownValue forbidden_error)) (ThrownValue forbidden_error)
             {| statusCode := JsNum 403; message := "Forbidden"; body := JsNull |});
      try reflexivity.
    left. reflexivity.
  - apply (handleRequest_failure_delivery unit _ (fun _ => Pending) (sample_request "GET" "")
             (fun _ => None)
             (httpGet (fun _ _ => Promise (Rejected (ThrownValue forbidden_error))))
             (fun _ _ => Promise (Rejected (ThrownValue forbidden_error)))
             (ThrownValue forbidden_error)
             {| statusCode := JsNum 403; message := "Forbidden"; body := JsNull |});
      try reflexivity.
    right. reflexivity.
Defined.






(** ** The constructors in the pipeline *)

(** X24.  A [GET] request that resolves to a node built by [json] is answered
    with status 200, exactly the fixed headers and the node's value; one
    that resolves to a node built by [directory], with the body
    ["directory"]. *)
Theorem json_and_directory_delivery :
  forall (U : Type) (root : ServiceNode U) (auth : AuthAccessor U) (request : Request)
         (callback : Callback) (value : JsValue) (cs : list (string * ServiceNode U)),
    rq_method request = "GET" ->
    (forall args, callback args = None) ->
    (resolve_request root request = Return (json value cs) ->
     handleRequest root auth request callback
     = {| calls := [{| cb_code := JsNum 200; cb_header := options;
                       cb_body := PayloadValue value |}];
          completion := Completed |}) /\
    (resolve_request root request = Return (directory cs) ->
     handleRequest root auth request callback
     = {| calls := [{| cb_code := JsNum 200; cb_header := options;
                       cb_body := PayloadValue (JsStr "directory") |}];
          completion := Completed |}).
Proof.
  intros U root auth request callback value cs Hverb Hcb.
  split; intros Hnode; unfold_pipeline; rewrite Hnode; simpl; rewrite Hverb; simpl;
    rewrite Hcb, (left_id_L ∅ (∪) options); reflexivity.
Qed.

Lemma json_and_directory_delivery_witness :
  handleRequest foo_tree (fun _ => Pending) (sample_request "GET" "/foo") (fun _ => None)
  = {| calls := [{| cb_code := JsNum 200; cb_header := options;
                    cb_body := PayloadValue (JsStr "foo") |}];
       completion := Completed |}.
Proof.
  apply (json_and_directory_delivery unit foo_tree (fun _ => Pending)
           (sample_request "GET" "/foo") (fun _ => None) (JsStr "foo") []);
    reflexivity.
Defined.

(** X25.  Behind [authenticate], when the accessor fulfils with a user and the
    wrapped handler fulfils with a result, the request is answered once,
    with status 200, exactly the fixed headers and that result as body. *)
Theorem authenticated_delivery :
  forall (U : Type) (root : ServiceNode U) (auth : AuthAccessor U) (request : Request)
         (callback : Callback) (node : ServiceNode U)
         (handler : U -> Request -> Awaited JsValue) (user : U) (result : JsValue),
    resolve_request root request = Return node ->
    assoc (rq_method request) (methods node) = Some (authenticate handler) ->
    auth tt = Fulfilled user ->
    handler user request = Fulfilled result ->
    (forall args, callback args = None) ->
    handleRequest root auth request callback
    = {| calls := [{| cb_code := JsNum 200; cb_header := options;
                      cb_body := PayloadValue result |}];
         completion := Completed |}.
Proof.
  intros U root auth request callback node handler user result Hnode Hmethod Hauth Hresult Hcb.
  unfold_pipeline. rewrite Hnode, Hmethod.
  unfold authenticate, authenticate_body, await_auth, await_handler, mbind, Async_bind,
    mret, Async_ret.
  simpl. rewrite Hauth. simpl. rewrite Hresult. simpl.
  rewrite Hcb, (left_id_L ∅ (∪) options). reflexivity.
Qed.

Lemma authenticated_delivery_witness :
  handleRequest guarded_tree (fun _ => Fulfilled "ann") (sample_request "GET" "")
    (fun _ => None)
  = {| calls := [{| cb_code := JsNum 200; cb_header := options;
                    cb_body := PayloadValue (JsStr "ann") |}];
       completion := Completed |}.
Proof.
  apply (authenticated_delivery string guarded_tree (fun _ => Fulfilled "ann")
           (sample_request "GET" "") (fun _ => None) guarded_tree echo_user "ann"
           (JsStr "ann"));
    reflexivity.
Defined.

(** X26.  Behind [authenticate], when the accessor does not fulfil, the wrapped
    handler is not invoked.  On a rejection [getError] can read, the
    request is answered exactly once with the normalised rejection; when
    the accessor never settles, the request is never answered. *)
Theorem authenticated_accessor_failure :
  forall (U : Type) (root : ServiceNode U) (auth : AuthAccessor U) (request : Request)
         (callback : Callback) (node : ServiceNode U)
         (handler : U -> Request -> Awaited JsValue),
    resolve_request root request = Return node ->
    assoc (rq_method request) (methods node) = Some (authenticate handler) ->
    (forall error httpError,
       auth tt = Rejected error ->
       getError error = Return httpError ->
       snd (authenticate_body handler request auth []) = [InvokedAuth] /\
       calls (handleRequest root auth request callback)
       = [{| cb_code := statusCode httpError; cb_header := options;
             cb_body := PayloadError request (message httpError) (body httpError) |}]) /\
    (auth tt = Pending ->
     snd (authenticate_body handler request auth []) = [InvokedAuth] /\
     handleRequest root auth request callback
     = {| calls := []; completion := NeverSettles |}).
Proof.
  intros U root auth request callback node handler Hnode Hmethod.
  split.
  - intros error httpError Hauth Herror.
    unfold_pipeline. rewrite Hnode, Hmethod.
    unfold authenticate, authenticate_body, await_auth, await_handler, mbind, Async_bind,
      mret, Async_ret.
    simpl. rewrite Hauth. simpl. split; [reflexivity|].
    rewrite (returnError_call _ _ _ _ _ Herror). simpl.
    match goal with |- context [match ?x with Some _ => _ | None => _ end] => destruct x end;
      reflexivity.
  - intros Hauth.
    unfold_pipeline. rewrite Hnode, Hmethod.
    unfold authenticate, authenticate_body, await_auth, await_handler, mbind, Async_bind,
      mret, Async_ret.
    simpl. rewrite Hauth. simpl. split; reflexivity.
Qed.

Lemma authenticated_accessor_failure_witness :
  (snd (authenticate_body echo_user (sample_request "GET" "")
          (fun _ => Rejected (ThrownValue forbidden_error)) []) = [InvokedAuth] /\
   calls (handleRequest guarded_tree (fun _ => Rejected (ThrownValue forbidden_error))
            (sample_request "GET" "") (fun _ => None))
   = [{| cb_code := JsNum 403; cb_header := options;
         cb_body := PayloadError (sample_request "GET" "") "Forbidden" JsNull |}]) /\
  (snd (authenticate_body echo_user (sample_request "GET" "") (fun _ => Pending) [])
   = [InvokedAuth] /\
   handleRequest guarded_tree (fun _ => Pending) (sample_request "GET" "") (fun _ => None)
   = {| calls := []; completion := NeverSettles |}).
Proof.
  split.
  - apply (proj1 (authenticated_accessor_failure string guarded_tree
                    (fun _ => Rejected (ThrownValue forbidden_error))
                    (sample_request "GET" "") (fun _ => None) guarded_tree echo_user
                    eq_refl eq_refl)
             (ThrownValue forbidden_error)
             {| statusCode := JsNum 403; message := "Forbidden"; body := JsNull |});
      reflexivity.
  - apply (proj2 (authenticated_accessor_failure string guarded_tree (fun _ => Pending)
                    (sample_request "GET" "") (fun _ => None) guarded_tree echo_user
                    eq_refl eq_refl)).
    reflexivity.
Defined.

(** ** The downstream helper *)

Lemma join_empty_separator (chunks : list string) :
  Js.join "" chunks = fold_right String.append "" chunks.
Proof.
  induction chunks as [|chunk rest IH]; [reflexivity|].
  destruct rest as [|next rest].
  - simpl. symmetry. apply string_app_empty_r.
  - change (Js.join "" (chunk :: next :: rest))
      with (chunk +:+ ("" +:+ Js.join "" (next :: rest))).
    rewrite IH. reflexivity.
Qed.

Section DownstreamFacts.

Variable JSON_parse : string -> Exc JsValue.

(** X27.  How the data was cut into chunks does not matter: the response
    depends on the chunks only through their concatenation. *)
Theorem makeRequest_end_chunking :
  forall (code : JsValue) (chunks : list string),
    makeRequest_end JSON_parse code chunks
    = makeRequest_end JSON_parse code [fold_right String.append "" chunks].
Proof.
  intros code chunks. unfold makeRequest_end.
  rewrite (join_empty_separator chunks). reflexivity.
Qed.

(** X28.  With no data received the body is [null] and [JSON.parse] is not
    consulted; with data, whatever [JSON.parse] throws is thrown before the
    promise is resolved. *)
Theorem makeRequest_end_body :
  forall (code : JsValue) (chunks : list string),
    (fold_right String.append "" chunks = "" ->
     makeRequest_end JSON_parse code chunks
     = Return {| rs_statusCode := if truthy code then code else JsNum 500;
                 rs_headers := ∅; rs_body := JsNull |}) /\
    (forall e, fold_right String.append "" chunks <> "" ->
               JSON_parse (fold_right String.append "" chunks) = Throw e ->
               makeRequest_end JSON_parse code chunks = Throw e).
Proof.
  intros code chunks. unfold makeRequest_end. rewrite (join_empty_separator chunks).
  split.
  - intros ->. reflexivity.
  - intros e Hne Hparse.
    destruct (fold_right String.append "" chunks) as [|a text] eqn:Htext; [congruence|].
    simpl. rewrite Hparse. reflexivity.
Qed.

(** X29.  The response never carries a falsy status code, an absent or zero one
    becoming 500, and its headers are always empty, whatever the remote
    end sent. *)
Theorem makeRequest_end_status :
  forall (code : JsValue) (chunks : list string) (response : Response),
    makeRequest_end JSON_parse code chunks = Return response ->
    truthy (rs_statusCode response) = true /\
    rs_headers response = ∅ /\
    (rs_statusCode response = code \/
     (truthy code = false /\ rs_statusCode response = JsNum 500)).
Proof.
  intros code chunks response. unfold makeRequest_end.
  destruct (String.length (Js.join "" chunks) =? 0)%nat; cbn.
  2: destruct (JSON_parse (Js.join "" chunks)) as [parsed|e]; cbn; [|discriminate].
  all: intros [= <-]; simpl; destruct (truthy code) eqn:Hcode;
    repeat split; auto.
Qed.

End DownstreamFacts.

Lemma makeRequest_end_body_witness :
  makeRequest_end (fun _ => Throw (ThrownValue (JsStr "SyntaxError"))) JsUndefined [""; ""]
  = Return {| rs_statusCode := JsNum 500; rs_headers := ∅; rs_body := JsNull |} /\
  makeRequest_end (fun _ => Throw (ThrownValue (JsStr "SyntaxError"))) (JsNum 200) ["{"; ""]
  = Throw (ThrownValue (JsStr "SyntaxError")).
Proof.
  split.
  - apply (makeRequest_end_body (fun _ => Throw (ThrownValue (JsStr "SyntaxError")))
             JsUndefined [""; ""]).
    reflexivity.
  - apply (makeRequest_end_body (fun _ => Throw (ThrownValue (JsStr "SyntaxError")))
             (JsNum 200) ["{"; ""]); [discriminate|reflexivity].
Defined.

Lemma makeRequest_end_status_witness :
  truthy (JsNum 500) = true /\
  (∅ : gmap string JsValue) = ∅ /\
  (JsNum 500 = JsNum 0 \/ (truthy (JsNum 0) = false /\ JsNum 500 = JsNum 500)).
Proof.
  apply (makeRequest_end_status (fun text => Return (JsStr text)) (JsNum 0) ["x"]
           {| rs_statusCode := JsNum 500; rs_headers := ∅; rs_body := JsStr "x" |}).
  reflexivity.
Defined.
